(** * routing-socks: the SOCKS5 proxy of [main.go]

    A shallow embedding of the proxy's protocol code
    ([handleHandshake], [readAddr], [dialThroughSocks], [writeReply],
    [handleClient]) over a small model of [net.Conn], followed by the
    properties of the wire format and of the session control flow.

    Bytes are [Byte.byte]; a [uint16] is an [N] below [2^16]; a Go [string]
    is a [string]; a [[]byte] is a [list byte].  The log lines and the relay
    loop of [handleClient] are outside the model. *)

From Stdlib Require Import String Ascii.
From Stdlib Require Import Strings.Byte.
From Stdlib Require DecimalString.
From Stdlib Require Import List NArith Arith Lia Bool.
Import ListNotations.
Local Open Scope list_scope.

(** * Part 1: the program *)

(** ** Go values: errors, results, byte arithmetic, slices *)

(** The [error] values the program can see. *)
Inductive error : Type :=
| EOF                         (* io.EOF *)
| ErrUnexpectedEOF            (* io.ErrUnexpectedEOF *)
| Errorf (msg : string)       (* fmt.Errorf(msg) *)
| OpError (op : string).      (* *net.OpError of a failed dial or write *)

(** What a call produces: a value, a non-nil [error], or a run-time panic
    (which, unrecovered in a goroutine, takes the whole process down). *)
Inductive outcome (A : Type) : Type :=
| Ok (a : A)
| Err (e : error)
| Panic (msg : string).

Arguments Ok {A} a.

Arguments Err {A} e.

Arguments Panic {A} msg.

(** The error values built with [fmt.Errorf] by the protocol checks: the
    malformed-wire-data errors. *)
Definition ProtocolError (e : error) : Prop :=
  match e with
  | Errorf _ => True
  | _ => False
  end.

(** Conversion [byte(n)]: truncation to the low 8 bits. *)
Definition byte_of_N (n : N) : byte :=
  match Byte.of_N (n mod 256) with
  | Some b => b
  | None => x00
  end.

(** [a + b] on [uint8]: computed modulo 2^8. *)
Definition uint8_add (a b : byte) : byte :=
  byte_of_N (Byte.to_N a + Byte.to_N b).

(** [make([]byte, n)]: n zero bytes. *)
Definition make (n : nat) : list byte := repeat x00 n.

(** The slice expression [s[lo:hi]] on a slice whose capacity is its length:
    [None] is the run-time panic "slice bounds out of range". *)
Definition slice (s : list byte) (lo hi : nat) : option (list byte) :=
  if (lo <=? hi) && (hi <=? length s)
  then Some (firstn (hi - lo) (skipn lo s))
  else None.

(** [bytes.Contains(s, []byte{b})]. *)
Definition Contains1 (s : list byte) (b : byte) : bool :=
  existsb (Byte.eqb b) s.

(** [binary.BigEndian.Uint16(b)] on a 2-byte slice: [b[1] | b[0]<<8]. *)
Definition BigEndian_Uint16 (b : list byte) : N :=
  N.lor (Byte.to_N (nth 1 b x00)) (N.shiftl (Byte.to_N (nth 0 b x00)) 8).

(** [binary.BigEndian.PutUint16(b, v)] on a fresh 2-byte slice:
    [b[0] = byte(v >> 8); b[1] = byte(v)]. *)
Definition BigEndian_PutUint16 (v : N) : list byte :=
  [byte_of_N (N.shiftr v 8); byte_of_N v].

(** ** The connection model *)

(** A [Conn] is one end of a TCP connection.  [rx] lists the segments the
    peer delivers, in order, before end of stream: one [Read] returns bytes of
    one segment only.  [tx] lists the byte strings of the [Write] calls that
    succeeded.  [wbudget] is the number of [Write] calls that still succeed
    ([None]: all of them). *)
Record Conn : Type := mkConn {
  rx : list (list byte);
  tx : list (list byte);
  wbudget : option nat;
  closed : bool
}.

Definition set_rx (r : list (list byte)) (c : Conn) : Conn :=
  mkConn r (tx c) (wbudget c) (closed c).

(** Code that uses one connection: a state-and-error monad over [Conn]. *)
Definition M (A : Type) : Type := Conn -> outcome A * Conn.

Definition ret {A} (a : A) : M A := fun c => (Ok a, c).

Definition fail {A} (e : error) : M A := fun c => (Err e, c).

Definition panic {A} (msg : string) : M A := fun c => (Panic msg, c).

Definition bind {A B} (m : M A) (k : A -> M B) : M B :=
  fun c =>
    match m c with
    | (Ok a, c') => k a c'
    | (Err e, c') => (Err e, c')
    | (Panic s, c') => (Panic s, c')
    end.

Notation "x <- m ;; k" := (bind m (fun x => k))
  (at level 61, m at next level, right associativity).

Notation "' pat <- m ;; k" := (bind m (fun x => match x with pat => k end))
  (at level 61, pat pattern, m at next level, right associativity).

(** [conn.Read(buf)]: at most [len(buf)] bytes of the next segment are copied
    to the front of [buf]; the result is the count and the buffer. *)
Definition Read (buf : list byte) : M (nat * list byte) :=
  fun c =>
    match rx c with
    | [] => (Err EOF, c)
    | seg :: rest =>
        let n := Nat.min (length seg) (length buf) in
        let rest' := if length seg <=? length buf then rest
                     else skipn n seg :: rest in
        (Ok (n, firstn n seg ++ skipn n buf), set_rx rest' c)
    end.

(** The loop of [io.ReadAtLeast]: [Read] until [need] more bytes have come,
    or the stream ends. *)
Fixpoint readLoop (segs : list (list byte)) (need : nat) (acc : list byte)
  : list byte * list (list byte) :=
  match need with
  | O => (acc, segs)
  | S _ =>
      match segs with
      | [] => (acc, [])
      | seg :: rest =>
          if length seg <=? need
          then readLoop rest (need - length seg) (acc ++ seg)
          else (acc ++ firstn need seg, skipn need seg :: rest)
      end
  end.

(** [io.ReadFull(conn, buf)] with [len(buf) = n]: the filled buffer, or
    [io.EOF] when no byte came, [io.ErrUnexpectedEOF] when too few did. *)
Definition ReadFull (n : nat) : M (list byte) :=
  fun c =>
    let '(got, rest) := readLoop (rx c) n [] in
    if length got =? n then (Ok got, set_rx rest c)
    else match got with
         | [] => (Err EOF, set_rx rest c)
         | _ :: _ => (Err ErrUnexpectedEOF, set_rx rest c)
         end.

(** [conn.Write(b)]. *)
Definition Write (b : list byte) : M nat :=
  fun c =>
    match wbudget c with
    | Some O => (Err (OpError "write"), c)
    | Some (S k) =>
        (Ok (length b), mkConn (rx c) (tx c ++ [b]) (Some k) (closed c))
    | None =>
        (Ok (length b), mkConn (rx c) (tx c ++ [b]) None (closed c))
    end.

(** [conn.Close()]. *)
Definition Close (c : Conn) : Conn :=
  mkConn (rx c) (tx c) (wbudget c) true.

(** ** The protocol code: handshake, request, reply *)

(** [Addr]: a SOCKS5 destination address.  The field [Addr] of the source is
    [AddrBytes] here, the type keeping the name. *)
Record Addr : Type := mkAddr {
  Atyp : byte;
  AddrBytes : list byte;
  Port : N
}.

(** [handleHandshake]: the server side of the method negotiation. *)
Definition handleHandshake : M unit :=
  '(n, buf) <- Read (make 256) ;;
  if (n <? 2) || negb (Byte.eqb (nth 0 buf x00) x05)
  then fail (Errorf "invalid version")
  else
    match slice buf 2 (N.to_nat (Byte.to_N (uint8_add x02 (nth 1 buf x00)))) with
    | None => panic "slice bounds out of range"
    | Some methods =>
        if negb (Contains1 methods x00)
        then fail (Errorf "no supported auth method")
        else
          _ <- Write [x05; x00] ;;
          ret tt
    end.

(** [readAddr]: the client's request, header and address. *)
Definition readAddr : M Addr :=
  header <- ReadFull 4 ;;
  if negb (Byte.eqb (nth 0 header x00) x05)
     || negb (Byte.eqb (nth 1 header x00) x01)
  then fail (Errorf "invalid request")
  else
    let atyp := nth 3 header x00 in
    addr <- match atyp with
            | x01 => ReadFull 4
            | x03 =>
                lenByte <- ReadFull 1 ;;
                let domainLen := N.to_nat (Byte.to_N (nth 0 lenByte x00)) in
                ReadFull domainLen
            | x04 => ReadFull 16
            | _ => fail (Errorf "unsupported address type")
            end ;;
    portBuf <- ReadFull 2 ;;
    let port := BigEndian_Uint16 portBuf in
    ret (mkAddr atyp addr port).

(** [writeReply]: the reply to the client. *)
Definition writeReply (rep : byte) : M unit :=
  let buf := [x05; rep; x00; x01; x00; x00; x00; x00; x00; x00] in
  _ <- Write buf ;;
  ret tt.

(** ** Package [net]: IP addresses and host:port strings *)

(** [net.IP] is a byte slice. *)
Definition IP : Type := list byte.

(** [ip.To4()]: the 4-byte form of an IPv4 address, [None] for [nil]. *)
Definition To4 (ip : IP) : option IP :=
  if length ip =? 4 then Some ip
  else if (length ip =? 16)
          && forallb (Byte.eqb x00) (firstn 10 ip)
          && Byte.eqb (nth 10 ip x00) xff
          && Byte.eqb (nth 11 ip x00) xff
       then Some (firstn 4 (skipn 12 ip))
       else None.

(** Decimal text of an unsigned number ([fmt.Sprint] on a [uint16], the
    fields of a dotted quad). *)
Definition Sprint (n : N) : string :=
  DecimalString.NilEmpty.string_of_uint (N.to_uint n).

(** Dotted-quad text of a 4-byte address. *)
Definition dotted (p4 : list byte) : string :=
  (Sprint (Byte.to_N (nth 0 p4 x00)) ++ "." ++
   Sprint (Byte.to_N (nth 1 p4 x00)) ++ "." ++
   Sprint (Byte.to_N (nth 2 p4 x00)) ++ "." ++
   Sprint (Byte.to_N (nth 3 p4 x00)))%string.

Definition hexDigit (n : N) : ascii :=
  nth (N.to_nat n) (list_ascii_of_string "0123456789abcdef") "0"%char.

(** [hexString(b)] of package [net]: two lower-case digits a byte. *)
Fixpoint hexString (b : list byte) : string :=
  match b with
  | [] => EmptyString
  | x :: r =>
      String (hexDigit (N.shiftr (Byte.to_N x) 4))
        (String (hexDigit (N.land (Byte.to_N x) 15)) (hexString r))
  end.

(** [strings.IndexByte(s, c) >= 0]. *)
Fixpoint hasByte (c : ascii) (s : string) : bool :=
  match s with
  | EmptyString => false
  | String a r => Ascii.eqb a c || hasByte c r
  end.

(** [net.JoinHostPort(host, port)]. *)
Definition JoinHostPort (host port : string) : string :=
  if hasByte ":"%char host
  then ("[" ++ host ++ "]:" ++ port)%string
  else (host ++ ":" ++ port)%string.

(** ** The upstream side *)

(** The request bytes [req] that [dialThroughSocks] builds for [dest]. *)
Definition connectRequest (dest : Addr) : list byte :=
  let req := [x05; x01; x00; Atyp dest] in
  let req := req ++ AddrBytes dest in
  let portBytes := BigEndian_PutUint16 (Port dest) in
  req ++ portBytes.

(** The error exit of [dialThroughSocks] once the upstream connection is
    open: [conn.Close(); return nil, err]. *)
Definition closeAndFail {A} (err : error) : M A :=
  fun conn => (Err err, Close conn).

(** A call whose error leaves through the given exit. *)
Definition bindOr {A B} (m : M A) (exit : error -> M B) (k : A -> M B) : M B :=
  fun c =>
    match m c with
    | (Ok a, c') => k a c'
    | (Err e, c') => exit e c'
    | (Panic s, c') => (Panic s, c')
    end.

Notation "x <- m 'orelse' h ;; k" := (bindOr m h (fun x => k))
  (at level 61, m at next level, h at next level, right associativity).

(** [dialThroughSocks] after its [net.Dial]: the exchange with the upstream
    proxy on the open connection. *)
Definition upstreamExchange (dest : Addr) : M unit :=
  _ <- Write [x05; x01; x00] orelse closeAndFail ;;
  resp <- ReadFull 2 orelse closeAndFail ;;
  if negb (Byte.eqb (nth 0 resp x00) x05)
     || negb (Byte.eqb (nth 1 resp x00) x00)
  then closeAndFail (Errorf "upstream auth failed")
  else
    _ <- Write (connectRequest dest) orelse closeAndFail ;;
    reply <- ReadFull 4 orelse closeAndFail ;;
    if negb (Byte.eqb (nth 1 reply x00) x00)
    then closeAndFail
           (Errorf ("upstream request failed: "
                    ++ Sprint (Byte.to_N (nth 1 reply x00))))
    else
      let atyp := nth 3 reply x00 in
      addrLen <- match atyp with
                 | x01 => ret 4
                 | x03 =>
                     lenByte <- ReadFull 1 orelse closeAndFail ;;
                     ret (N.to_nat (Byte.to_N (nth 0 lenByte x00)))
                 | x04 => ret 16
                 | _ => closeAndFail (Errorf "unsupported address type in reply")
                 end ;;
      _ <- ReadFull (addrLen + 2) orelse closeAndFail ;;
      ret tt.

(** ** The session *)

(** What lies outside the program: the resolver behind [net.LookupIP] (the
    addresses, and the error if any), the network behind [net.Dial] (a
    connection or an error), and the library's text form of a 16-byte address
    that is not an IPv4 one ([netip.Addr.String]). *)
Record Env : Type := mkEnv {
  LookupIP : string -> list IP * option error;
  Dial : string -> Conn + error;
  Addr16_String : list byte -> string
}.

Section Program.

Variable env : Env.

(** [ip.String()]. *)
Definition IP_String (ip : IP) : string :=
  if length ip =? 0 then "<nil>"%string
  else if negb (length ip =? 4) && negb (length ip =? 16)
  then ("?" ++ hexString ip)%string
  else match To4 ip with
       | Some p4 =>
           if length p4 =? 4 then dotted p4 else Addr16_String env ip
       | None => Addr16_String env ip
       end.

(** The loop of [handleClient] over [ipsToCheck]: the text of the first
    address with a 4-byte form, or the empty string left in [ipToUse]. *)
Fixpoint firstTo4 (ipsToCheck : list IP) : string :=
  match ipsToCheck with
  | [] => EmptyString
  | ip :: rest =>
      match To4 ip with
      | Some _ => IP_String ip
      | None => firstTo4 rest
      end
  end.

(** The value of [ipToUse] in [handleClient] after the loop and the
    fall-back to [ipsToCheck[0]]. *)
Definition ipToUse (ipsToCheck : list IP) : string :=
  let ipToUse := firstTo4 ipsToCheck in
  if String.eqb ipToUse EmptyString && (0 <? length ipsToCheck)
  then IP_String (nth 0 ipsToCheck [])
  else ipToUse.

(** [dialThroughSocks]: the result ([Ok]: the connection is returned with a
    nil error; [Err]: nil and the error), and the connection that [net.Dial]
    opened, if it did, as the function leaves it. *)
Definition dialThroughSocks (upstream : string) (dest : Addr)
  : outcome unit * option Conn :=
  match Dial env upstream with
  | inr err => (Err err, None)
  | inl conn =>
      let '(r, conn') := upstreamExchange dest conn in
      (r, Some conn')
  end.

(** How a session ends. *)
Inductive ending : Type :=
| HandshakeFailed (err : error)   (* "Handshake failed:" *)
| RequestFailed (err : error)     (* "Read request failed:" *)
| ConnectFailed (err : error)     (* "Connect failed:" *)
| ReplyFailed (err : error)       (* "Write reply failed:" *)
| Relayed                         (* the two io.Copy were started *)
| Crashed (msg : string).         (* unrecovered panic *)

(** A session of [handleClient] when it is over: the client connection, the
    outbound connection if one was opened, the host given to [net.LookupIP],
    the address given to [net.Dial], and the ending. *)
Record Session : Type := mkSession {
  clientEnd : Conn;
  destEnd : option Conn;
  lookedUp : option string;
  dialed : option string;
  ended : ending
}.

(** [handleClient].  The deferred [client.Close()] runs on every exit, the
    deferred [destConn.Close()] on the exits after the connect succeeded.
    The relay itself is not run: [Relayed] records that it was started. *)
Definition handleClient (client : Conn) (upstream : string) : Session :=
  match handleHandshake client with
  | (Panic msg, client) => mkSession (Close client) None None None (Crashed msg)
  | (Err err, client) =>
      mkSession (Close client) None None None (HandshakeFailed err)
  | (Ok _, client) =>
      match readAddr client with
      | (Panic msg, client) =>
          mkSession (Close client) None None None (Crashed msg)
      | (Err err, client) =>
          mkSession (Close client) None None None (RequestFailed err)
      | (Ok destAddr, client) =>
          let host := string_of_list_byte (AddrBytes destAddr) in
          let '(ipsToCheck, _) := LookupIP env host in
          let ipToUse := ipToUse ipsToCheck in
          let port := Port destAddr in
          let '(res, destConn, target) :=
            if negb (String.eqb upstream EmptyString)
            then
              let '(r, conn) := dialThroughSocks upstream destAddr in
              (r, conn, upstream)
            else
              let addrStr := JoinHostPort ipToUse (Sprint port) in
              match Dial env addrStr with
              | inl conn => (Ok tt, Some conn, addrStr)
              | inr err => (Err err, None, addrStr)
              end in
          match res with
          | Panic msg =>
              mkSession (Close client) destConn (Some host) (Some target)
                (Crashed msg)
          | Err err =>
              let '(_, client) := writeReply x05 client in
              mkSession (Close client) destConn (Some host) (Some target)
                (ConnectFailed err)
          | Ok _ =>
              match writeReply x00 client with
              | (Ok _, client) =>
                  mkSession (Close client) (option_map Close destConn)
                    (Some host) (Some target) Relayed
              | (Err err, client) =>
                  mkSession (Close client) (option_map Close destConn)
                    (Some host) (Some target) (ReplyFailed err)
              | (Panic msg, client) =>
                  mkSession (Close client) (option_map Close destConn)
                    (Some host) (Some target) (Crashed msg)
              end
          end
      end
  end.

End Program.

(** ** The log form of an address *)

(** [Addr.String]: the address as [handleClient] logs it. *)
Definition Addr_String (env : Env) (a : Addr) : string :=
  match Atyp a with
  | x01 => (IP_String env (AddrBytes a) ++ ":" ++ Sprint (Port a))%string
  | x03 => (string_of_list_byte (AddrBytes a) ++ ":" ++ Sprint (Port a))%string
  | x04 =>
      ("[" ++ IP_String env (AddrBytes a) ++ "]:" ++ Sprint (Port a))%string
  | _ => "unknown"%string
  end.

(** * Part 2: vocabulary of the properties *)

(** All the bytes the peer still delivers, whatever the segments. *)
Definition stream (c : Conn) : list byte := concat (rx c).

(** The buffer of [handleHandshake] after its [Read] took [seg]. *)
Definition filled (seg : list byte) : list byte :=
  let n := Nat.min (length seg) 256 in
  firstn n seg ++ skipn n (make 256).

(** A valid destination address: the address type fixes the length of the
    address bytes, and the port is a [uint16]. *)
Definition validAddr (a : Addr) : Prop :=
  (Port a < 65536)%N
  /\ ((Atyp a = x01 /\ length (AddrBytes a) = 4)
      \/ (Atyp a = x03 /\ length (AddrBytes a) <= 255)
      \/ (Atyp a = x04 /\ length (AddrBytes a) = 16)).

(** The address body on the wire as [readAddr] consumes it: the address
    bytes, after a length byte for a domain name. *)
Definition wireBody (a : Addr) : list byte :=
  if Byte.eqb (Atyp a) x03
  then byte_of_N (N.of_nat (length (AddrBytes a))) :: AddrBytes a
  else AddrBytes a.

(** The CONNECT request as the protocol description has it:
    {0x05, 0x01, 0x00, address type, address body, port}, the body of a
    domain name with its length byte. *)
Definition wireRequest (a : Addr) : list byte :=
  [x05; x01; x00; Atyp a] ++ wireBody a ++ BigEndian_PutUint16 (Port a).

(** A computation is calm when it never panics. *)
Definition calm {A} (m : M A) : Prop :=
  forall c, match m c with (Panic _, _) => False | _ => True end.

(** A computation on the upstream connection is tidy when it never panics
    and leaves the connection closed whenever it returns an error. *)
Definition tidy {A} (m : M A) : Prop :=
  forall c,
    match m c with
    | (Ok _, _) => True
    | (Err _, c') => closed c' = true
    | (Panic _, _) => False
    end.

(** The connection can take [k] more writes. *)
Definition canWrite (k : nat) (c : Conn) : Prop :=
  match wbudget c with
  | Some n => k <= n
  | None => True
  end.

(** The bound address and port that follow the header of an upstream reply
    with the given address type. *)
Inductive replyBody : byte -> list byte -> Prop :=
| body_ipv4 (b : list byte) :
    length b = 4 + 2 -> replyBody x01 b
| body_domain (l : byte) (b : list byte) :
    length b = N.to_nat (Byte.to_N l) + 2 -> replyBody x03 (l :: b)
| body_ipv6 (b : list byte) :
    length b = 16 + 2 -> replyBody x04 b.

(** The upstream setup passes every step: the connection to the upstream is
    established, the handshake and the request can be written, the upstream
    answers the handshake with {0x05, 0x00}, then a reply header with
    status 0x00 and an address type of 1, 3 or 4, then the bound address and
    port of that type in full. *)
Definition SetupPasses (env : Env) (upstream : string) : Prop :=
  exists conn,
    Dial env upstream = inl conn
    /\ canWrite 2 conn
    /\ exists ver rsv atyp body more,
         stream conn = [x05; x00] ++ [ver; x00; rsv; atyp] ++ body ++ more
         /\ replyBody atyp body.

(** The failures of the upstream setup, step by step: the TCP connect, the
    write of the handshake, the read of its answer, an answer other than
    {0x05, 0x00}, the write of the request, the read of the reply header, a
    non-zero reply status, an unsupported reply address type, the read of
    the rest of the reply. *)
Inductive SetupFailure (env : Env) (upstream : string) : Prop :=
| fail_connect (e : error) :
    Dial env upstream = inr e -> SetupFailure env upstream
| fail_handshake_write (conn : Conn) :
    Dial env upstream = inl conn ->
    wbudget conn = Some 0 -> SetupFailure env upstream
| fail_handshake_read (conn : Conn) :
    Dial env upstream = inl conn ->
    length (stream conn) < 2 -> SetupFailure env upstream
| fail_handshake_answer (conn : Conn) :
    Dial env upstream = inl conn ->
    firstn 2 (stream conn) <> [x05; x00] -> SetupFailure env upstream
| fail_request_write (conn : Conn) :
    Dial env upstream = inl conn ->
    wbudget conn = Some 1 -> SetupFailure env upstream
| fail_reply_read (conn : Conn) :
    Dial env upstream = inl conn ->
    length (stream conn) < 2 + 4 -> SetupFailure env upstream
| fail_reply_status (conn : Conn) :
    Dial env upstream = inl conn ->
    nth 3 (stream conn) x00 <> x00 -> SetupFailure env upstream
| fail_reply_atyp (conn : Conn) :
    Dial env upstream = inl conn ->
    nth 5 (stream conn) x00 <> x01 ->
    nth 5 (stream conn) x00 <> x03 ->
    nth 5 (stream conn) x00 <> x04 -> SetupFailure env upstream
| fail_reply_drain (conn : Conn) :
    Dial env upstream = inl conn ->
    (forall body more,
        skipn 6 (stream conn) = body ++ more ->
        ~ replyBody (nth 5 (stream conn) x00) body) ->
    SetupFailure env upstream.

(** An address is an IPv4 one when [To4] is not nil. *)
Definition isIPv4 (ip : IP) : bool :=
  match To4 ip with
  | Some _ => true
  | None => false
  end.

(** The preferred address of a resolution: the first IPv4 address if there is
    one, otherwise the first address. *)
Definition preferredIP (ips : list IP) : option IP :=
  match find isIPv4 ips with
  | Some ip => Some ip
  | None => hd_error ips
  end.

(** A computation only reads: it never panics and leaves what was written,
    the write budget and the closed flag of the connection as they were. *)
Definition readsOnly {A} (m : M A) : Prop :=
  forall c,
    (forall msg, fst (m c) <> Panic msg)
    /\ tx (snd (m c)) = tx c
    /\ wbudget (snd (m c)) = wbudget c
    /\ closed (snd (m c)) = closed c.

(** A computation sees the byte stream only: its result and the stream it
    leaves do not depend on how the bytes were cut into segments. *)
Definition streamOnly {A} (m : M A) : Prop :=
  forall c1 c2,
    stream c1 = stream c2 ->
    fst (m c1) = fst (m c2) /\ stream (snd (m c1)) = stream (snd (m c2)).

(** A computation writes nothing. *)
Definition keepsTx {A} (m : M A) : Prop :=
  forall c, tx (snd (m c)) = tx c.

(** ** Peers and worlds of the concrete runs *)

(** A fresh connection on which the peer sends the given segments. *)
Definition peer (segs : list (list byte)) : Conn :=
  mkConn segs [] None false.

(** A client that sends a no-auth handshake, then a CONNECT request for
    93.184.216.34:80. *)
Definition clientIPv4 : Conn :=
  peer [[x05; x01; x00];
        [x05; x01; x00; x01; x5d; xb8; xd8; x22; x00; x50]].

(** A client that sends a no-auth handshake, then a CONNECT request for the
    domain name "a", port 80. *)
Definition clientDomain : Conn :=
  peer [[x05; x01; x00]; [x05; x01; x00; x03; x01; x61; x00; x50]].

(** An upstream proxy that accepts: it answers the handshake, then replies
    with status 0x00 and the bound address 0.0.0.0:0. *)
Definition acceptingUpstream : Conn :=
  peer [[x05; x00]; [x05; x00; x00; x01; x00; x00; x00; x00; x00; x00]].

(** An upstream proxy that refuses: it answers the handshake, then replies
    with status 0x01. *)
Definition refusingUpstream : Conn :=
  peer [[x05; x00]; [x05; x01; x00; x01; x00; x00; x00; x00; x00; x00]].

(** A world where every dial reaches the given connection and the resolver
    knows no host. *)
Definition worldOf (conn : Conn) : Env :=
  mkEnv (fun _ => ([], Some (OpError "lookup")))
        (fun _ => inl conn)
        (fun _ => "::"%string).

(** A world whose resolver answers every host with an IPv6 address, then an
    IPv4 one, and where no dial succeeds. *)
Definition resolvingWorld : Env :=
  mkEnv (fun _ =>
           ([[x20; x01; x0d; xb8; x00; x00; x00; x00;
              x00; x00; x00; x00; x00; x00; x00; x01];
             [x5d; xb8; xd8; x22]], None))
        (fun _ => inr (OpError "dial"))
        (fun _ => "2001:db8::1"%string).

(** A world whose resolver answers every host with 93.184.216.34 and where
    every dial reaches a server that stays silent. *)
Definition reachableWorld : Env :=
  mkEnv (fun _ => ([[x5d; xb8; xd8; x22]], None))
        (fun _ => inl (peer []))
        (fun _ => "::"%string).

(** * Part 3: properties *)

(** ** Runs of the program on concrete connections *)

Example handshake_noauth :
  handleHandshake (peer [[x05; x01; x00]])
  = (Ok tt, mkConn [] [[x05; x00]] None false).
Proof. reflexivity. Qed.

Example handshake_wrap255 :
  fst (handleHandshake (peer [[x05; xff]])) = Panic "slice bounds out of range".
Proof. reflexivity. Qed.

Example handshake_short :
  handleHandshake (peer [[x05; x01]])
  = (Ok tt, mkConn [] [[x05; x00]] None false).
Proof. reflexivity. Qed.

Example readAddr_example :
  fst (readAddr (peer [[x05; x01; x00; x01; x5d; xb8; xd8; x22; x00; x50]]))
  = Ok (mkAddr x01 [x5d; xb8; xd8; x22] 80).
Proof. reflexivity. Qed.

Example chained_session_relays :
  handleClient (worldOf acceptingUpstream) clientIPv4 "127.0.0.1:1081"
  = mkSession
      (mkConn [] [[x05; x00];
                  [x05; x00; x00; x01; x00; x00; x00; x00; x00; x00]]
         None true)
      (Some (mkConn [] [[x05; x01; x00];
                        [x05; x01; x00; x01; x5d; xb8; xd8; x22; x00; x50]]
               None true))
      (Some (string_of_list_byte [x5d; xb8; xd8; x22]))
      (Some "127.0.0.1:1081"%string)
      Relayed.
Proof. reflexivity. Qed.

Example refused_session_reports :
  handleClient (worldOf refusingUpstream) clientIPv4 "127.0.0.1:1081"
  = mkSession
      (mkConn [] [[x05; x00];
                  [x05; x05; x00; x01; x00; x00; x00; x00; x00; x00]]
         None true)
      (Some (mkConn [[x00; x00; x00; x00; x00; x00]]
               [[x05; x01; x00];
                [x05; x01; x00; x01; x5d; xb8; xd8; x22; x00; x50]]
               None true))
      (Some (string_of_list_byte [x5d; xb8; xd8; x22]))
      (Some "127.0.0.1:1081"%string)
      (ConnectFailed (Errorf "upstream request failed: 1")).
Proof. reflexivity. Qed.

Example panic_ends_session :
  ended (handleClient (worldOf acceptingUpstream) (peer [[x05; xfe]])
           EmptyString)
  = Crashed "slice bounds out of range".
Proof. reflexivity. Qed.

(** ** Facts about the Go primitives *)

Lemma to_N_byte_of_N (n : N) : Byte.to_N (byte_of_N n) = (n mod 256)%N.
Proof.
  unfold byte_of_N.
  destruct (Byte.of_N (n mod 256)) eqn:E.
  - now apply Byte.to_of_N.
  - apply Byte.of_N_None_iff in E.
    pose proof (N.mod_upper_bound n 256). lia.
Qed.

Lemma byte_of_to_N (b : byte) : byte_of_N (Byte.to_N b) = b.
Proof.
  unfold byte_of_N.
  pose proof (Byte.to_N_bounded b).
  rewrite N.mod_small by lia.
  now rewrite Byte.of_to_N.
Qed.

Lemma to_N_inj (a b : byte) : Byte.to_N a = Byte.to_N b -> a = b.
Proof.
  intros H. rewrite <- (byte_of_to_N a), <- (byte_of_to_N b). now rewrite H.
Qed.

Lemma uint8_add_2 (b : byte) :
  N.to_nat (Byte.to_N (uint8_add x02 b))
  = (2 + N.to_nat (Byte.to_N b)) mod 256.
Proof.
  unfold uint8_add. rewrite to_N_byte_of_N.
  change (Byte.to_N x02) with 2%N.
  rewrite N2Nat.inj_mod, N2Nat.inj_add. reflexivity.
Qed.

Lemma byte_eqb_eq (a b : byte) : Byte.eqb a b = true <-> a = b.
Proof.
  split; [apply Byte.byte_dec_bl | apply Byte.byte_dec_lb].
Qed.

Lemma Contains1_In (s : list byte) (b : byte) :
  Contains1 s b = true <-> In b s.
Proof.
  unfold Contains1. rewrite existsb_exists. split.
  - intros [x [Hin Heq]]. apply byte_eqb_eq in Heq. now subst.
  - intros Hin. exists b. split; [assumption | now apply byte_eqb_eq].
Qed.

Lemma length_make (n : nat) : length (make n) = n.
Proof. apply repeat_length. Qed.

Lemma slice_Some (s : list byte) (lo hi : nat) :
  lo <= hi -> hi <= length s ->
  slice s lo hi = Some (firstn (hi - lo) (skipn lo s)).
Proof.
  intros H1 H2. unfold slice.
  apply Nat.leb_le in H1, H2. now rewrite H1, H2.
Qed.

Lemma slice_None (s : list byte) (lo hi : nat) :
  hi < lo -> slice s lo hi = None.
Proof.
  intros H. unfold slice.
  apply Nat.leb_gt in H. now rewrite H.
Qed.

(** ** The buffer of the handshake *)

Lemma length_filled (seg : list byte) : length (filled seg) = 256.
Proof.
  unfold filled. rewrite length_app, length_firstn, length_skipn, length_make.
  lia.
Qed.

Lemma nth_filled_lt (seg : list byte) (i : nat) :
  i < Nat.min (length seg) 256 -> nth i (filled seg) x00 = nth i seg x00.
Proof.
  intros H. unfold filled.
  rewrite app_nth1 by (rewrite length_firstn; lia).
  rewrite nth_firstn.
  apply Nat.ltb_lt in H. now rewrite H.
Qed.

Lemma nth_filled_ge (seg : list byte) (i : nat) :
  Nat.min (length seg) 256 <= i -> nth i (filled seg) x00 = x00.
Proof.
  intros H. unfold filled.
  rewrite app_nth2 by (rewrite length_firstn; lia).
  rewrite nth_skipn. unfold make. apply nth_repeat.
Qed.

(** [handleHandshake] after its [Read] returned [seg]: the checks on the
    buffer, then the answer. *)
Lemma handleHandshake_Read (c : Conn) (seg : list byte) (rest : list (list byte)) :
  rx c = seg :: rest ->
  2 <= Nat.min (length seg) 256 ->
  nth 0 seg x00 = x05 ->
  handleHandshake c =
  let c1 := set_rx (if length seg <=? 256 then rest
                    else skipn (Nat.min (length seg) 256) seg :: rest) c in
  match slice (filled seg) 2
          ((2 + N.to_nat (Byte.to_N (nth 1 seg x00))) mod 256) with
  | None => (Panic "slice bounds out of range", c1)
  | Some methods =>
      if negb (Contains1 methods x00)
      then (Err (Errorf "no supported auth method"), c1)
      else (_ <- Write [x05; x00] ;; ret tt) c1
  end.
Proof.
  intros Hrx Hn H0.
  unfold handleHandshake, bind at 1, Read. rewrite Hrx.
  rewrite length_make. fold (filled seg).
  assert (Hlt : (Nat.min (length seg) 256 <? 2) = false)
    by (apply Nat.ltb_ge; exact Hn).
  rewrite Hlt, nth_filled_lt, H0 by lia. cbn [orb negb Byte.eqb].
  change (Byte.eqb x05 x05) with true. cbn [negb].
  rewrite uint8_add_2, nth_filled_lt by lia.
  cbv zeta.
  destruct (slice _ _ _); [ | reflexivity].
  destruct (negb _); reflexivity.
Qed.

(** With a method count up to 253 the slice is in range: it is the [N] bytes
    of the buffer from index 2. *)
Lemma methods_in_range (seg : list byte) (N : nat) :
  N <= 253 ->
  slice (filled seg) 2 ((2 + N) mod 256)
  = Some (firstn N (skipn 2 (filled seg))).
Proof.
  intros H. rewrite Nat.mod_small by lia.
  rewrite slice_Some by (rewrite ?length_filled; lia).
  f_equal. f_equal. lia.
Qed.

(** With a method count of 254 or 255 the upper bound wraps below 2. *)
Lemma methods_wrap (seg : list byte) (N : nat) :
  254 <= N <= 255 ->
  slice (filled seg) 2 ((2 + N) mod 256) = None.
Proof.
  intros H. apply slice_None.
  assert (N = 254 \/ N = 255) as [-> | ->] by lia; cbn; lia.
Qed.

(** ** Reading from the byte stream *)

Lemma readLoop_stream (segs : list (list byte)) :
  forall (need : nat) (acc : list byte),
    fst (readLoop segs need acc) = acc ++ firstn need (concat segs)
    /\ concat (snd (readLoop segs need acc)) = skipn need (concat segs).
Proof.
  induction segs as [ | seg rest IH]; intros need acc.
  - destruct need; cbn; rewrite ?firstn_nil, ?app_nil_r; auto.
  - destruct need as [ | k].
    + cbn. rewrite app_nil_r. auto.
    + cbn [readLoop concat].
      destruct (length seg <=? S k) eqn:E.
      * apply Nat.leb_le in E.
        destruct (IH (S k - length seg) (acc ++ seg)) as [H1 H2].
        rewrite H1, H2, firstn_app, skipn_app.
        rewrite (@firstn_all2 _ (S k) seg) by lia.
        rewrite (@skipn_all2 _ (S k) seg) by lia.
        rewrite <- app_assoc. auto.
      * apply Nat.leb_gt in E. cbn [fst snd concat].
        rewrite firstn_app, skipn_app.
        replace (S k - length seg) with 0 by lia.
        rewrite firstn_O, skipn_O, app_nil_r. auto.
Qed.

(** [io.ReadFull] succeeds exactly when the stream holds enough bytes, and
    then takes the first [n] of them. *)
Lemma ReadFull_enough (n : nat) (c : Conn) :
  n <= length (stream c) ->
  exists rest,
    concat rest = skipn n (stream c)
    /\ ReadFull n c = (Ok (firstn n (stream c)), set_rx rest c).
Proof.
  intros H. unfold ReadFull.
  destruct (readLoop_stream (rx c) n []) as [H1 H2].
  destruct (readLoop (rx c) n []) as [got rest]. cbn [fst snd] in *.
  exists rest. split; [exact H2 | ].
  subst got. cbn [app]. fold (stream c).
  rewrite length_firstn, Nat.min_l by exact H.
  now rewrite Nat.eqb_refl.
Qed.

Lemma ReadFull_short (n : nat) (c : Conn) :
  length (stream c) < n ->
  exists rest,
    concat rest = []
    /\ ReadFull n c
       = (Err (match stream c with [] => EOF | _ :: _ => ErrUnexpectedEOF end),
          set_rx rest c).
Proof.
  intros H. unfold ReadFull.
  destruct (readLoop_stream (rx c) n []) as [H1 H2].
  destruct (readLoop (rx c) n []) as [got rest]. cbn [fst snd] in *.
  exists rest. fold (stream c) in *.
  rewrite skipn_all2 in H2 by lia. split; [exact H2 | ].
  subst got. cbn [app].
  rewrite firstn_all2 by lia.
  assert (E : (length (stream c) =? n) = false) by (apply Nat.eqb_neq; lia).
  rewrite E. destruct (stream c); reflexivity.
Qed.

Lemma stream_set_rx (rest : list (list byte)) (c : Conn) :
  stream (set_rx rest c) = concat rest.
Proof. reflexivity. Qed.

(** A step [x <- ReadFull n ;; k x] that ends well read [n] bytes. *)
Lemma bind_ReadFull_Ok {B} (n : nat) (k : list byte -> M B)
      (c c' : Conn) (b : B) :
  (x <- ReadFull n ;; k x) c = (Ok b, c') ->
  exists rest,
    n <= length (stream c)
    /\ concat rest = skipn n (stream c)
    /\ k (firstn n (stream c)) (set_rx rest c) = (Ok b, c').
Proof.
  intros H. unfold bind in H.
  destruct (Nat.le_gt_cases n (length (stream c))) as [Hle | Hgt].
  - destruct (ReadFull_enough n c Hle) as [rest [Hr E]].
    rewrite E in H. exists rest. auto.
  - destruct (ReadFull_short n c Hgt) as [rest [Hr E]].
    rewrite E in H. discriminate.
Qed.

Lemma bind_ReadFull_enough {B} (n : nat) (k : list byte -> M B) (c : Conn) :
  n <= length (stream c) ->
  exists rest,
    concat rest = skipn n (stream c)
    /\ (x <- ReadFull n ;; k x) c = k (firstn n (stream c)) (set_rx rest c).
Proof.
  intros Hle. destruct (ReadFull_enough n c Hle) as [rest [Hr E]].
  exists rest. split; [exact Hr | ]. unfold bind. now rewrite E.
Qed.

(** The address-type switch of [readAddr], as a chain of tests. *)
Lemma atyp_switch {A} (b : byte) (f1 f3 f4 fd : A) :
  match b with
  | x01 => f1 | x03 => f3 | x04 => f4
  | _ => fd
  end
  = if Byte.eqb b x01 then f1
    else if Byte.eqb b x03 then f3
    else if Byte.eqb b x04 then f4
    else fd.
Proof. destruct b; reflexivity. Qed.

Lemma bind_assoc {A B C} (m : M A) (f : A -> M B) (k : B -> M C) (c : Conn) :
  (y <- (x <- m ;; f x) ;; k y) c = (x <- m ;; y <- f x ;; k y) c.
Proof.
  unfold bind. destruct (m c) as [[a | e | s] c1]; reflexivity.
Qed.

(** ** Big-endian ports *)

Lemma lor_shiftl_8 (lo hi : N) :
  (lo < 256)%N -> N.lor lo (N.shiftl hi 8) = (lo + 256 * hi)%N.
Proof.
  intros Hlo.
  assert (Hland : N.land lo (N.shiftl hi 8) = 0%N).
  { apply N.bits_inj. intros i. rewrite N.land_spec, N.bits_0.
    destruct (N.lt_ge_cases i 8) as [Hi | Hi].
    - rewrite N.shiftl_spec_low by exact Hi. apply andb_false_r.
    - replace (N.testbit lo i) with false; [reflexivity | ].
      symmetry. destruct (N.eq_dec lo 0) as [-> | Hne].
      + apply N.bits_0.
      + apply N.bits_above_log2. apply N.log2_lt_pow2; [lia | ].
        apply N.lt_le_trans with (2 ^ 8)%N; [exact Hlo | ].
        apply N.pow_le_mono_r; lia. }
  rewrite <- N.lxor_lor by exact Hland.
  rewrite <- N.add_nocarry_lxor by exact Hland.
  rewrite N.shiftl_mul_pow2. change (2 ^ 8)%N with 256%N. lia.
Qed.

(** [BigEndian.Uint16] after [BigEndian.PutUint16] gives the [uint16] back. *)
Lemma Uint16_PutUint16 (v : N) :
  (v < 65536)%N -> BigEndian_Uint16 (BigEndian_PutUint16 v) = v.
Proof.
  intros Hv. unfold BigEndian_Uint16, BigEndian_PutUint16. cbn [nth].
  rewrite !to_N_byte_of_N, N.shiftr_div_pow2. change (2 ^ 8)%N with 256%N.
  rewrite lor_shiftl_8 by (apply N.mod_upper_bound; lia).
  rewrite (N.mod_small (v / 256)) by (apply N.Div0.div_lt_upper_bound; lia).
  pose proof (N.div_mod v 256). lia.
Qed.

(** [BigEndian.PutUint16] after [BigEndian.Uint16] gives the two bytes back. *)
Lemma PutUint16_Uint16 (p0 p1 : byte) :
  BigEndian_PutUint16 (BigEndian_Uint16 [p0; p1]) = [p0; p1].
Proof.
  unfold BigEndian_Uint16, BigEndian_PutUint16. cbn [nth].
  pose proof (Byte.to_N_bounded p0). pose proof (Byte.to_N_bounded p1).
  rewrite lor_shiftl_8 by lia.
  rewrite N.shiftr_div_pow2. change (2 ^ 8)%N with 256%N.
  f_equal; [ | f_equal].
  - apply to_N_inj. rewrite to_N_byte_of_N.
    replace ((Byte.to_N p1 + 256 * Byte.to_N p0) / 256)%N with (Byte.to_N p0).
    + apply N.mod_small. lia.
    + symmetry. rewrite N.add_comm, N.mul_comm, N.div_add_l by lia.
      rewrite N.div_small by lia. lia.
  - apply to_N_inj. rewrite to_N_byte_of_N.
    replace (Byte.to_N p1 + 256 * Byte.to_N p0)%N
      with (Byte.to_N p1 + Byte.to_N p0 * 256)%N by lia.
    rewrite N.Div0.mod_add. apply N.mod_small. lia.
Qed.

Lemma Uint16_bounded (b : list byte) : (BigEndian_Uint16 b < 65536)%N.
Proof.
  unfold BigEndian_Uint16.
  pose proof (Byte.to_N_bounded (nth 0 b x00)).
  pose proof (Byte.to_N_bounded (nth 1 b x00)).
  rewrite lor_shiftl_8 by lia. lia.
Qed.

(** ** The request parser and the wire form *)

Lemma list_of_length_1 (l : list byte) :
  length l = 1 -> l = [nth 0 l x00].
Proof. destruct l as [ | a [ | ? ?]]; cbn; intros; try discriminate; reflexivity. Qed.

Lemma list_of_length_2 (l : list byte) :
  length l = 2 -> l = [nth 0 l x00; nth 1 l x00].
Proof.
  destruct l as [ | a [ | b [ | ? ?]]]; cbn; intros; try discriminate; reflexivity.
Qed.

Lemma list_of_length_4 (l : list byte) :
  length l = 4 -> l = [nth 0 l x00; nth 1 l x00; nth 2 l x00; nth 3 l x00].
Proof.
  destruct l as [ | a [ | b [ | c [ | d [ | ? ?]]]]]; cbn; intros;
    try discriminate; reflexivity.
Qed.

Lemma split_at (n : nat) (s : list byte) :
  n <= length s -> s = firstn n s ++ skipn n s /\ length (firstn n s) = n.
Proof.
  intros H. split; [symmetry; apply firstn_skipn | ].
  rewrite length_firstn. lia.
Qed.

(** One successful [ReadFull] step in hypothesis [H]: its bytes [x], their
    number, and the stream split at them. *)
Ltac read_step H x r E Len :=
  let L := fresh "L" in
  let S := fresh "S" in
  apply bind_ReadFull_Ok in H as [r [L [S H]]];
  rewrite ?stream_set_rx in L, S, H;
  match type of L with
  | ?n <= length ?s =>
      destruct (split_at n s L) as [E Len];
      set (x := firstn n s) in *;
      rewrite <- S in E; clearbody x; clear S L
  end.

(** The last step of [readAddr]: the two port bytes. *)
Lemma readAddr_port (atyp : byte) (addr : list byte) (c1 c' : Conn) (a : Addr) :
  (portBuf <- ReadFull 2 ;;
   ret (mkAddr atyp addr (BigEndian_Uint16 portBuf))) c1 = (Ok a, c') ->
  a = mkAddr atyp addr (Port a)
  /\ (Port a < 65536)%N
  /\ stream c1 = BigEndian_PutUint16 (Port a) ++ stream c'
  /\ tx c' = tx c1 /\ wbudget c' = wbudget c1 /\ closed c' = closed c1.
Proof.
  intros Hp.
  read_step Hp portBuf r E Lp.
  unfold ret in Hp. injection Hp as <- <-.
  cbn [Port]. rewrite stream_set_rx.
  destruct portBuf as [ | p0 [ | p1 [ | ? ?]]]; try discriminate Lp.
  rewrite PutUint16_Uint16.
  repeat split; try reflexivity; [apply Uint16_bounded | exact E].
Qed.

(** [readAddr] is sound for the wire form: when it returns an address, the
    stream began with a request header of version 5 and command 1, the
    address type, the body (length byte first for a domain name) and the
    port; nothing more was consumed, and the address is valid. *)
Lemma readAddr_Ok_inv (c c' : Conn) (a : Addr) :
  readAddr c = (Ok a, c') ->
  validAddr a
  /\ (exists rsv,
        stream c = [x05; x01; rsv; Atyp a] ++ wireBody a
                   ++ BigEndian_PutUint16 (Port a) ++ stream c')
  /\ tx c' = tx c /\ wbudget c' = wbudget c /\ closed c' = closed c.
Proof.
  intros H. unfold readAddr in H.
  read_step H header r1 E1 Lh.
  rewrite (list_of_length_4 header Lh) in E1.
  destruct (Byte.eqb (nth 0 header x00) x05) eqn:V; [ | discriminate].
  destruct (Byte.eqb (nth 1 header x00) x01) eqn:K; [ | discriminate].
  apply byte_eqb_eq in V, K. rewrite V, K in E1.
  cbn [negb orb] in H. cbv zeta in H.
  rewrite atyp_switch in H.
  set (atyp := nth 3 header x00) in *.
  destruct (Byte.eqb atyp x01) eqn:T1;
    [ | destruct (Byte.eqb atyp x03) eqn:T3;
        [ | destruct (Byte.eqb atyp x04) eqn:T4; [ | discriminate]]].
  - (* IPv4 *)
    apply byte_eqb_eq in T1.
    read_step H addr r2 E2 La.
    apply readAddr_port in H as (-> & Hp & Sp & ? & ? & ?).
    cbn [Atyp AddrBytes Port] in *. unfold wireBody. cbn [Atyp AddrBytes].
    rewrite T1 in *. change (Byte.eqb x01 x03) with false. cbv iota.
    rewrite stream_set_rx in *.
    repeat split; auto.
    exists (nth 2 header x00).
    rewrite E1, E2, Sp, <- ?app_assoc. reflexivity.
  - (* domain name *)
    apply byte_eqb_eq in T3.
    rewrite bind_assoc in H.
    read_step H lenByte r2 E2 Ll.
    cbv zeta in H.
    read_step H addr r3 E3 La.
    apply readAddr_port in H as (-> & Hp & Sp & ? & ? & ?).
    cbn [Atyp AddrBytes Port] in *. unfold wireBody. cbn [Atyp AddrBytes].
    rewrite T3 in *. change (Byte.eqb x03 x03) with true. cbv iota.
    rewrite stream_set_rx in *.
    pose proof (Byte.to_N_bounded (nth 0 lenByte x00)) as Hb.
    repeat split; auto.
    + right. left. cbn [Atyp AddrBytes]. split; [reflexivity | ]. rewrite La. lia.
    + exists (nth 2 header x00).
      rewrite E1, E2, E3, Sp, <- ?app_assoc.
      rewrite (list_of_length_1 _ Ll) at 1.
      rewrite La, N2Nat.id, byte_of_to_N. reflexivity.
  - (* IPv6 *)
    apply byte_eqb_eq in T4.
    read_step H addr r2 E2 La.
    apply readAddr_port in H as (-> & Hp & Sp & ? & ? & ?).
    cbn [Atyp AddrBytes Port] in *. unfold wireBody. cbn [Atyp AddrBytes].
    rewrite T4 in *. change (Byte.eqb x04 x03) with false. cbv iota.
    rewrite stream_set_rx in *.
    repeat split; auto.
    exists (nth 2 header x00).
    rewrite E1, E2, Sp, <- ?app_assoc. reflexivity.
Qed.

Lemma app_exact (n : nat) (pre post : list byte) :
  length pre = n ->
  firstn n (pre ++ post) = pre /\ skipn n (pre ++ post) = post.
Proof.
  intros <-. split.
  - rewrite firstn_app, firstn_all, Nat.sub_diag, firstn_O. apply app_nil_r.
  - rewrite skipn_app, skipn_all, Nat.sub_diag, skipn_O. reflexivity.
Qed.

(** A step [x <- ReadFull n ;; k x] on a stream that begins with the [n]
    bytes [pre] goes on with them. *)
Lemma bind_ReadFull_prefix {B} (n : nat) (k : list byte -> M B) (c : Conn)
      (pre post : list byte) :
  stream c = pre ++ post ->
  length pre = n ->
  exists rest,
    concat rest = post
    /\ (x <- ReadFull n ;; k x) c = k pre (set_rx rest c).
Proof.
  intros Hs Hn.
  destruct (app_exact n pre post Hn) as [F S].
  assert (Hle : n <= length (stream c))
    by (rewrite Hs, length_app; lia).
  destruct (bind_ReadFull_enough n k c Hle) as [rest [Hr E]].
  exists rest. rewrite Hs, F in E. rewrite Hs, S in Hr. auto.
Qed.

(** One [ReadFull] step of the goal, on a stream known to begin with [pre]. *)
Ltac read_prefix pre post Hs Hn r S :=
  match goal with
  | |- context [bind (ReadFull ?n) ?k ?c] =>
      destruct (bind_ReadFull_prefix n k c pre post Hs Hn) as [r [S ->]]
  end.

(** [readAddr] is complete for the wire form: on a stream that begins with
    the wire form of a valid address it returns that address and leaves the
    rest of the stream. *)
Lemma readAddr_wire (c : Conn) (a : Addr) (rsv : byte) (more : list byte) :
  validAddr a ->
  stream c = [x05; x01; rsv; Atyp a] ++ wireBody a
             ++ BigEndian_PutUint16 (Port a) ++ more ->
  exists c',
    readAddr c = (Ok a, c')
    /\ stream c' = more
    /\ tx c' = tx c /\ wbudget c' = wbudget c /\ closed c' = closed c.
Proof.
  intros [Hport Hty] Hs. destruct a as [atyp addr port].
  cbn [Atyp AddrBytes Port] in *. unfold wireBody in Hs.
  cbn [Atyp AddrBytes] in Hs. unfold readAddr.
  read_prefix [x05; x01; rsv; atyp]
              ((if Byte.eqb atyp x03
                then byte_of_N (N.of_nat (length addr)) :: addr else addr)
               ++ BigEndian_PutUint16 port ++ more)
              Hs (eq_refl 4) r1 S1.
  cbn [nth]. change (Byte.eqb x05 x05) with true.
  change (Byte.eqb x01 x01) with true. cbn [negb orb]. cbv zeta.
  rewrite atyp_switch.
  assert (port_step :
    forall c1,
      stream c1 = BigEndian_PutUint16 port ++ more ->
      tx c1 = tx c -> wbudget c1 = wbudget c -> closed c1 = closed c ->
      exists c',
        (portBuf <- ReadFull 2 ;;
         ret (mkAddr atyp addr (BigEndian_Uint16 portBuf))) c1
        = (Ok (mkAddr atyp addr port), c')
        /\ stream c' = more
        /\ tx c' = tx c /\ wbudget c' = wbudget c /\ closed c' = closed c).
  { intros c1 Hs1 Ht Hw Hc.
    read_prefix (BigEndian_PutUint16 port) more Hs1 (eq_refl 2) r Er.
    rewrite Uint16_PutUint16 by exact Hport.
    eexists. split; [reflexivity | ].
    rewrite stream_set_rx. auto. }
  destruct Hty as [[-> La] | [[-> La] | [-> La]]].
  - change (Byte.eqb x01 x03) with false in S1. cbv iota in S1.
    change (Byte.eqb x01 x01) with true. cbv iota.
    assert (Hs2 : stream (set_rx r1 c) = addr ++ BigEndian_PutUint16 port ++ more)
      by (rewrite stream_set_rx; exact S1).
    read_prefix addr (BigEndian_PutUint16 port ++ more) Hs2 La r2 S2.
    apply port_step; [rewrite stream_set_rx; exact S2 | reflexivity ..].
  - change (Byte.eqb x03 x03) with true in S1. cbv iota in S1.
    change (Byte.eqb x03 x01) with false.
    change (Byte.eqb x03 x03) with true. cbv iota.
    assert (Hs2 : stream (set_rx r1 c)
                  = [byte_of_N (N.of_nat (length addr))]
                    ++ addr ++ BigEndian_PutUint16 port ++ more)
      by (rewrite stream_set_rx; exact S1).
    match goal with
    | |- context [bind (bind ?m ?f) ?k ?x] => rewrite (bind_assoc m f k x)
    end.
    read_prefix [byte_of_N (N.of_nat (length addr))]
                (addr ++ BigEndian_PutUint16 port ++ more)
                Hs2 (eq_refl 1) r2 S2.
    cbn [nth]. cbv zeta.
    assert (Hl : length addr
                 = N.to_nat (Byte.to_N (byte_of_N (N.of_nat (length addr))))).
    { rewrite to_N_byte_of_N, N.mod_small by lia. now rewrite Nat2N.id. }
    assert (Hs3 : stream (set_rx r2 (set_rx r1 c))
                  = addr ++ BigEndian_PutUint16 port ++ more)
      by (rewrite stream_set_rx; exact S2).
    read_prefix addr (BigEndian_PutUint16 port ++ more) Hs3 Hl r3 S3.
    apply port_step; [rewrite stream_set_rx; exact S3 | reflexivity ..].
  - change (Byte.eqb x04 x03) with false in S1. cbv iota in S1.
    change (Byte.eqb x04 x01) with false.
    change (Byte.eqb x04 x03) with false.
    change (Byte.eqb x04 x04) with true. cbv iota.
    assert (Hs2 : stream (set_rx r1 c) = addr ++ BigEndian_PutUint16 port ++ more)
      by (rewrite stream_set_rx; exact S1).
    read_prefix addr (BigEndian_PutUint16 port ++ more) Hs2 La r2 S2.
    apply port_step; [rewrite stream_set_rx; exact S2 | reflexivity ..].
Qed.

(** ** The handshake *)

Lemma Write_tt_ok (b : list byte) (c : Conn) :
  wbudget c <> Some 0 ->
  fst ((_ <- Write b ;; ret tt) c) = Ok tt
  /\ tx (snd ((_ <- Write b ;; ret tt) c)) = tx c ++ [b]
  /\ rx (snd ((_ <- Write b ;; ret tt) c)) = rx c
  /\ closed (snd ((_ <- Write b ;; ret tt) c)) = closed c.
Proof.
  intros H. unfold bind, Write, ret.
  destruct (wbudget c) as [[ | k] | ]; [congruence | | ]; cbn; auto.
Qed.

Lemma Write_tt_failed (b : list byte) (c : Conn) :
  wbudget c = Some 0 ->
  (_ <- Write b ;; ret tt) c = (Err (OpError "write"), c).
Proof.
  intros H. unfold bind, Write. now rewrite H.
Qed.

(** A message shorter than its method count leaves zero bytes of the fresh
    buffer inside the method list. *)
Lemma short_message_has_zero_method (seg : list byte) (N : nat) :
  2 <= Nat.min (length seg) 256 ->
  Nat.min (length seg) 256 < 2 + N ->
  N <= 253 ->
  Contains1 (firstn N (skipn 2 (filled seg))) x00 = true.
Proof.
  intros H2 Hshort HN. apply Contains1_In.
  set (n := Nat.min (length seg) 256) in *.
  assert (Hlen : length (firstn N (skipn 2 (filled seg))) = N).
  { rewrite length_firstn, length_skipn, length_filled. lia. }
  assert (Hnth : nth (n - 2) (firstn N (skipn 2 (filled seg))) x00 = x00).
  { rewrite nth_firstn.
    assert (Hlt : (n - 2 <? N) = true) by (apply Nat.ltb_lt; lia).
    rewrite Hlt, nth_skipn.
    apply nth_filled_ge. fold n. lia. }
  rewrite <- Hnth. apply nth_In. lia.
Qed.

(** On a short message no error of the handshake is a protocol error: it
    succeeds, fails to write, or panics. *)
Lemma handshake_short_never_protocol_error
      (c : Conn) (seg : list byte) (rest : list (list byte)) (e : error) :
  rx c = seg :: rest ->
  2 <= Nat.min (length seg) 256 ->
  nth 0 seg x00 = x05 ->
  Nat.min (length seg) 256 < 2 + N.to_nat (Byte.to_N (nth 1 seg x00)) ->
  fst (handleHandshake c) = Err e -> e = OpError "write".
Proof.
  intros Hrx Hn H0 Hshort.
  rewrite (handleHandshake_Read c seg rest Hrx Hn H0). cbv zeta.
  set (N := N.to_nat (Byte.to_N (nth 1 seg x00))) in *.
  set (c1 := set_rx _ c).
  destruct (Nat.le_gt_cases N 253) as [Hle | Hgt].
  - rewrite methods_in_range by exact Hle.
    rewrite short_message_has_zero_method by assumption. cbn [negb].
    unfold bind, Write, ret.
    destruct (wbudget c1) as [[ | k] | ]; cbn; congruence.
  - assert (HN : N <= 255)
      by (pose proof (Byte.to_N_bounded (nth 1 seg x00)); subst N; lia).
    rewrite methods_wrap by lia. discriminate.
Qed.

(** C3. Server-role handshake on a short negotiation message: when the
    single read returned [n >= 2] bytes, the first of them 5, and fewer than
    the [N] method bytes the second byte declares ([n < 2 + N], [N <= 253]),
    the negotiation on a connection that can be written to does not fail: it
    succeeds and answers [{0x05, 0x00}].  The method list is cut from the
    256-byte zero-filled buffer, so the bytes never received count as method
    0x00. *)
Theorem handshake_accepts_short_message
        (c : Conn) (seg : list byte) (rest : list (list byte)) :
  rx c = seg :: rest ->
  2 <= Nat.min (length seg) 256 ->
  nth 0 seg x00 = x05 ->
  Nat.min (length seg) 256 < 2 + N.to_nat (Byte.to_N (nth 1 seg x00)) ->
  N.to_nat (Byte.to_N (nth 1 seg x00)) <= 253 ->
  wbudget c <> Some 0 ->
  fst (handleHandshake c) = Ok tt
  /\ tx (snd (handleHandshake c)) = tx c ++ [[x05; x00]].
Proof.
  intros Hrx Hn H0 Hshort Hle W.
  rewrite (handleHandshake_Read c seg rest Hrx Hn H0). cbv zeta.
  rewrite methods_in_range by exact Hle.
  rewrite short_message_has_zero_method by assumption. cbn [negb].
  set (c1 := set_rx _ c).
  destruct (Write_tt_ok [x05; x00] c1 W) as (R & T & _).
  split; [exact R | exact T].
Qed.

(** A concrete run on the two-byte message {0x05, 0x01}: one method
    declared, none sent, and the handshake succeeds. *)
Lemma handshake_accepts_short_message_witness :
  fst (handleHandshake (peer [[x05; x01]])) = Ok tt
  /\ tx (snd (handleHandshake (peer [[x05; x01]]))) = [] ++ [[x05; x00]].
Proof.
  apply (handshake_accepts_short_message (peer [[x05; x01]]) [x05; x01] []).
  - reflexivity.
  - cbn. lia.
  - reflexivity.
  - cbn. lia.
  - cbn. lia.
  - cbn. discriminate.
Defined.

(** C10. Bounds of the method-list slice: after a first read of [n >= 2]
    bytes with first byte 5, [handleHandshake] panics exactly when the second
    byte [N] is 254 or 255.  The bound [2 + N] is computed on [uint8], wraps
    to 0 or 1, and the slice [buf[2:0]] or [buf[2:1]] is out of range. *)
Theorem handshake_slice_panics_iff
        (c : Conn) (seg : list byte) (rest : list (list byte)) :
  rx c = seg :: rest ->
  2 <= Nat.min (length seg) 256 ->
  nth 0 seg x00 = x05 ->
  (exists msg, fst (handleHandshake c) = Panic msg)
  <-> 254 <= N.to_nat (Byte.to_N (nth 1 seg x00)).
Proof.
  intros Hrx Hn H0.
  rewrite (handleHandshake_Read c seg rest Hrx Hn H0). cbv zeta.
  set (N := N.to_nat (Byte.to_N (nth 1 seg x00))) in *.
  set (c1 := set_rx _ c).
  assert (HN : N <= 255)
    by (pose proof (Byte.to_N_bounded (nth 1 seg x00)); subst N; lia).
  destruct (Nat.le_gt_cases N 253) as [Hle | Hgt].
  - rewrite methods_in_range by exact Hle.
    split; [ | lia].
    intros [msg Hp]. exfalso.
    destruct (negb _); [discriminate | ].
    unfold bind, Write, ret in Hp.
    destruct (wbudget c1) as [[ | k] | ]; discriminate.
  - rewrite methods_wrap by lia.
    split; [lia | ]. intros _. eexists. reflexivity.
Qed.

(** A concrete run on the message {0x05, 0xff}: the handshake panics. *)
Lemma handshake_slice_panics_iff_witness :
  exists msg, fst (handleHandshake (peer [[x05; xff]])) = Panic msg.
Proof.
  apply (handshake_slice_panics_iff (peer [[x05; xff]]) [x05; xff] []).
  - reflexivity.
  - cbn. lia.
  - reflexivity.
  - cbn. lia.
Defined.

(** C8. Server-role handshake on two messages: on {0x05, 0x01, 0x00} it
    succeeds and writes exactly {0x05, 0x00}; on {0x05, 0x01, 0x02} it fails
    with the protocol error "no supported auth method" and writes nothing. *)
Theorem handshake_examples :
  (fst (handleHandshake (peer [[x05; x01; x00]])) = Ok tt
   /\ tx (snd (handleHandshake (peer [[x05; x01; x00]]))) = [[x05; x00]])
  /\ (fst (handleHandshake (peer [[x05; x01; x02]]))
      = Err (Errorf "no supported auth method")
      /\ ProtocolError (Errorf "no supported auth method")
      /\ tx (snd (handleHandshake (peer [[x05; x01; x02]]))) = []).
Proof.
  repeat split.
Qed.

(** ** The reply and the request header *)

(** The reply that [writeReply] writes when the write goes through. *)
Lemma writeReply_written (rep : byte) (c : Conn) :
  wbudget c <> Some 0 ->
  fst (writeReply rep c) = Ok tt
  /\ tx (snd (writeReply rep c))
     = tx c ++ [[x05; rep; x00; x01; x00; x00; x00; x00; x00; x00]]
  /\ rx (snd (writeReply rep c)) = rx c
  /\ closed (snd (writeReply rep c)) = closed c.
Proof.
  intros W. unfold writeReply. cbv zeta. now apply Write_tt_ok.
Qed.

(** C7. For every status byte [rep], [writeReply] on a connection that can
    be written to writes exactly the 10 bytes
    {0x05, rep, 0x00, 0x01, 0,0,0,0, 0,0}: the bound address reported is
    0.0.0.0:0 whatever the status. *)
Theorem writeReply_bytes (rep : byte) (c : Conn) :
  wbudget c <> Some 0 ->
  fst (writeReply rep c) = Ok tt
  /\ tx (snd (writeReply rep c))
     = tx c ++ [[x05; rep; x00; x01; x00; x00; x00; x00; x00; x00]]
  /\ length (last (tx (snd (writeReply rep c))) []) = 10.
Proof.
  intros W.
  destruct (writeReply_written rep c W) as (R & T & _).
  split; [exact R | ]. split; [exact T | ].
  rewrite T, last_last. reflexivity.
Qed.

(** A concrete run: the reply with status 0x00 on a fresh connection. *)
Lemma writeReply_bytes_witness :
  fst (writeReply x00 (peer [])) = Ok tt
  /\ tx (snd (writeReply x00 (peer [])))
     = [] ++ [[x05; x00; x00; x01; x00; x00; x00; x00; x00; x00]]
  /\ length (last (tx (snd (writeReply x00 (peer [])))) []) = 10.
Proof.
  apply (writeReply_bytes x00 (peer [])). cbn. discriminate.
Defined.

(** A failed write of the reply writes nothing. *)
Lemma writeReply_failed (rep : byte) (c : Conn) :
  wbudget c = Some 0 ->
  writeReply rep c = (Err (OpError "write"), c).
Proof.
  intros W. unfold writeReply. cbv zeta. now apply Write_tt_failed.
Qed.

(** A header with another version or command ends [readAddr] after the four
    header bytes. *)
Lemma readAddr_bad_header (c : Conn) (v cmd rsv atyp : byte) (more : list byte) :
  stream c = [v; cmd; rsv; atyp] ++ more ->
  v <> x05 \/ cmd <> x01 ->
  exists c',
    readAddr c = (Err (Errorf "invalid request"), c')
    /\ stream c' = more
    /\ tx c' = tx c.
Proof.
  intros Hs Hbad. unfold readAddr.
  read_prefix [v; cmd; rsv; atyp] more Hs (eq_refl 4) r1 S1.
  cbn [nth].
  assert (T : negb (Byte.eqb v x05) || negb (Byte.eqb cmd x01) = true).
  { apply orb_true_iff.
    destruct Hbad as [Hv | Hc]; [left | right]; apply negb_true_iff;
      apply not_true_is_false; intros E; apply byte_eqb_eq in E; contradiction. }
  rewrite T. eexists. split; [reflexivity | ].
  rewrite stream_set_rx. auto.
Qed.

(** C6. [readAddr] (the request parser): on a stream of at least four bytes
    whose version is not 5 or whose command is not 1 it fails with the
    protocol error "invalid request" having read exactly the four header
    bytes; when it succeeds the stream began with version 5 and command 1;
    on {0x05,0x01,0x00,0x01, 93,184,216,34, 0x00,0x50} it yields the IPv4
    address 93.184.216.34 with port 80, and with command 0x02 (BIND) in that
    request it fails with the protocol error. *)
Theorem readAddr_header_and_example :
  (forall (c : Conn) (v cmd rsv atyp : byte) (more : list byte),
      stream c = [v; cmd; rsv; atyp] ++ more ->
      v <> x05 \/ cmd <> x01 ->
      exists c',
        readAddr c = (Err (Errorf "invalid request"), c')
        /\ ProtocolError (Errorf "invalid request")
        /\ stream c' = more)
  /\ (forall (c c' : Conn) (a : Addr),
         readAddr c = (Ok a, c') ->
         exists rsv more, stream c = [x05; x01; rsv; Atyp a] ++ more)
  /\ fst (readAddr
            (peer [[x05; x01; x00; x01; x5d; xb8; xd8; x22; x00; x50]]))
     = Ok (mkAddr x01 [x5d; xb8; xd8; x22] 80)
  /\ fst (readAddr
            (peer [[x05; x02; x00; x01; x5d; xb8; xd8; x22; x00; x50]]))
     = Err (Errorf "invalid request").
Proof.
  split; [ | split; [ | split; reflexivity]].
  - intros c v cmd rsv atyp more Hs Hbad.
    destruct (readAddr_bad_header c v cmd rsv atyp more Hs Hbad)
      as (c' & R & S' & _).
    exists c'. repeat split; assumption.
  - intros c c' a H.
    destruct (readAddr_Ok_inv c c' a H) as (_ & [rsv E] & _).
    eauto.
Qed.

(** A concrete run on a BIND request sent in two segments: rejected after
    the header, the address bytes left unread. *)
Lemma readAddr_header_and_example_witness :
  exists c',
    readAddr (peer [[x05; x02]; [x00; x01; x5d; xb8; xd8; x22; x00; x50]])
    = (Err (Errorf "invalid request"), c')
    /\ ProtocolError (Errorf "invalid request")
    /\ stream c' = [x5d; xb8; xd8; x22; x00; x50].
Proof.
  apply (proj1 readAddr_header_and_example
           (peer [[x05; x02]; [x00; x01; x5d; xb8; xd8; x22; x00; x50]])
           x05 x02 x00 x01 [x5d; xb8; xd8; x22; x00; x50]).
  - reflexivity.
  - right. discriminate.
Defined.

(** ** The address on the wire: what is written and what is read *)

Lemma connectRequest_bytes (dest : Addr) :
  connectRequest dest
  = [x05; x01; x00; Atyp dest] ++ AddrBytes dest
    ++ BigEndian_PutUint16 (Port dest).
Proof. unfold connectRequest. cbv zeta. now rewrite <- app_assoc. Qed.

Lemma length_connectRequest (dest : Addr) :
  length (connectRequest dest) = 4 + length (AddrBytes dest) + 2.
Proof.
  rewrite connectRequest_bytes, !length_app. cbn. lia.
Qed.

(** Outside domain names the request written is the wire form. *)
Lemma connectRequest_wire (dest : Addr) :
  Atyp dest <> x03 -> connectRequest dest = wireRequest dest.
Proof.
  intros H. rewrite connectRequest_bytes. unfold wireRequest, wireBody.
  destruct (Byte.eqb (Atyp dest) x03) eqn:E; [ | reflexivity].
  apply byte_eqb_eq in E. contradiction.
Qed.

(** For a domain name the request written is one byte shorter than the wire
    form: the length byte is missing. *)
Lemma connectRequest_domain_short (dest : Addr) :
  Atyp dest = x03 ->
  length (wireRequest dest) = S (length (connectRequest dest)).
Proof.
  intros H. rewrite length_connectRequest. unfold wireRequest, wireBody.
  rewrite H. change (Byte.eqb x03 x03) with true. cbv iota.
  rewrite !length_app. cbn. lia.
Qed.

(** C1. Round trip of the address codec, as the code has it: for a valid
    destination address [a], [readAddr] on the request bytes that
    [dialThroughSocks] writes for [a] returns [a] exactly when [a] is not a
    domain name.  For IPv4 and IPv6 the round trip holds; for a domain name
    the request carries no length byte and the parser never gives [a]
    back. *)
Theorem connect_request_roundtrip (a : Addr) (c : Conn) :
  validAddr a ->
  stream c = connectRequest a ->
  (fst (readAddr c) = Ok a <-> Atyp a <> x03).
Proof.
  intros Hv Hs. split.
  - intros Hok Hdom.
    destruct (readAddr c) as [r c'] eqn:R. cbn [fst] in Hok. subst r.
    destruct (readAddr_Ok_inv c c' a R) as (_ & [rsv E] & _).
    assert (L : length (stream c) = length (connectRequest a))
      by now rewrite Hs.
    rewrite E, length_connectRequest in L.
    unfold wireBody in L. rewrite Hdom in L.
    change (Byte.eqb x03 x03) with true in L. cbv iota in L.
    rewrite !length_app in L. cbn in L. lia.
  - intros Hnd.
    rewrite (connectRequest_wire a Hnd) in Hs.
    unfold wireRequest in Hs.
    rewrite <- (app_nil_r (BigEndian_PutUint16 (Port a))) in Hs.
    destruct (readAddr_wire c a x00 [] Hv Hs) as (c' & R & _).
    now rewrite R.
Qed.

(** A concrete run on the domain name "a" with port 80: the bytes
    05 01 00 03 61 00 50 do not parse back to it. *)
Lemma connect_request_roundtrip_witness :
  fst (readAddr (peer [connectRequest (mkAddr x03 [x61] 80)]))
  = Ok (mkAddr x03 [x61] 80)
  <-> x03 <> x03.
Proof.
  apply (connect_request_roundtrip (mkAddr x03 [x61] 80)
           (peer [connectRequest (mkAddr x03 [x61] 80)])).
  - split; [reflexivity | ].
    right. left. split; [reflexivity | cbn; lia].
  - reflexivity.
Defined.

Example roundtrip_domain_fails :
  fst (readAddr (peer [connectRequest (mkAddr x03 [x61] 80)]))
  = Err ErrUnexpectedEOF.
Proof. reflexivity. Qed.

Example roundtrip_ipv4 :
  fst (readAddr (peer [connectRequest (mkAddr x01 [x5d; xb8; xd8; x22] 80)]))
  = Ok (mkAddr x01 [x5d; xb8; xd8; x22] 80).
Proof. reflexivity. Qed.

(** ** The exchange with the upstream proxy *)

Lemma calm_ReadFull (n : nat) : calm (ReadFull n).
Proof.
  intros c. unfold ReadFull.
  destruct (readLoop (rx c) n []) as [got rest].
  destruct (length got =? n); [exact I | ].
  destruct got; exact I.
Qed.

Lemma calm_Write (b : list byte) : calm (Write b).
Proof.
  intros c. unfold Write. destruct (wbudget c) as [[ | k] | ]; exact I.
Qed.

Lemma tidy_ret {A} (a : A) : tidy (ret a).
Proof. intros c. exact I. Qed.

Lemma tidy_closeAndFail {A} (e : error) : tidy (@closeAndFail A e).
Proof. intros c. reflexivity. Qed.

Lemma tidy_bindOr {A B} (m : M A) (k : A -> M B) :
  calm m -> (forall a, tidy (k a)) -> tidy (bindOr m closeAndFail k).
Proof.
  intros Hm Hk c. unfold bindOr. specialize (Hm c).
  destruct (m c) as [[a | e | s] c1].
  - apply Hk.
  - reflexivity.
  - exact Hm.
Qed.

Lemma tidy_bind {A B} (m : M A) (k : A -> M B) :
  tidy m -> (forall a, tidy (k a)) -> tidy (bind m k).
Proof.
  intros Hm Hk c. unfold bind. specialize (Hm c).
  destruct (m c) as [[a | e | s] c1].
  - apply Hk.
  - exact Hm.
  - exact Hm.
Qed.

Lemma tidy_if {A} (b : bool) (m1 m2 : M A) :
  tidy m1 -> tidy m2 -> tidy (if b then m1 else m2).
Proof. destruct b; auto. Qed.

Create HintDb tidy.

#[local] Hint Resolve calm_ReadFull calm_Write tidy_ret tidy_closeAndFail
  tidy_bindOr tidy_bind tidy_if : tidy.

(** Every exit of the exchange that returns an error has closed the
    connection, and the exchange never panics. *)
Lemma tidy_upstreamExchange (dest : Addr) : tidy (upstreamExchange dest).
Proof.
  unfold upstreamExchange.
  do 2 (apply tidy_bindOr; [auto with tidy | intros ?]).
  apply tidy_if; [auto with tidy | ].
  do 2 (apply tidy_bindOr; [auto with tidy | intros ?]).
  apply tidy_if; [auto with tidy | ].
  cbv zeta. apply tidy_bind; [rewrite atyp_switch | ]; auto 8 with tidy.
Qed.

Lemma bindOr_Write_Ok {B} (bs : list byte) (k : nat -> M B)
      (c c' : Conn) (b : B) :
  bindOr (Write bs) closeAndFail k c = (Ok b, c') ->
  canWrite 1 c
  /\ k (length bs)
       (mkConn (rx c) (tx c ++ [bs]) (option_map Nat.pred (wbudget c))
          (closed c))
     = (Ok b, c').
Proof.
  unfold bindOr, Write, canWrite.
  destruct (wbudget c) as [[ | n] | ]; intros H.
  - discriminate.
  - split; [lia | exact H].
  - split; [exact I | exact H].
Qed.

Lemma bindOr_ReadFull_Ok {B} (n : nat) (k : list byte -> M B)
      (c c' : Conn) (b : B) :
  bindOr (ReadFull n) closeAndFail k c = (Ok b, c') ->
  exists rest,
    n <= length (stream c)
    /\ concat rest = skipn n (stream c)
    /\ k (firstn n (stream c)) (set_rx rest c) = (Ok b, c').
Proof.
  intros H. apply (bind_ReadFull_Ok n k c c' b).
  unfold bind. unfold bindOr in H.
  destruct (ReadFull n c) as [[a | e | s] c1]; [exact H | discriminate ..].
Qed.

Lemma bind_bindOr_assoc {A B C} (m : M A) (f : A -> M B) (k : B -> M C)
      (c : Conn) :
  bind (bindOr m closeAndFail f) k c
  = bindOr m closeAndFail (fun x => bind (f x) k) c.
Proof.
  unfold bind, bindOr, closeAndFail.
  destruct (m c) as [[a | e | s] c1]; reflexivity.
Qed.

Lemma bind_ret {A B} (a : A) (k : A -> M B) (c : Conn) :
  bind (ret a) k c = k a c.
Proof. reflexivity. Qed.

Lemma stream_after_write (c : Conn) (t : list (list byte)) (w : option nat)
      (cl : bool) :
  stream (mkConn (rx c) t w cl) = stream c.
Proof. reflexivity. Qed.

(** One successful [ReadFull] step with the closing exit in hypothesis [H]. *)
Ltac read_step_or H x r E Len :=
  let L := fresh "L" in
  let S := fresh "S" in
  apply bindOr_ReadFull_Ok in H as [r [L [S H]]];
  rewrite ?stream_after_write, ?stream_set_rx in L, S, H;
  match type of L with
  | ?n <= length ?s =>
      destruct (split_at n s L) as [E Len];
      set (x := firstn n s) in *;
      rewrite <- S in E; clearbody x; clear S L
  end.

(** When the exchange succeeds, every step passed: both writes went out, the
    upstream sent the handshake answer, the reply header and the bound
    address in full, and the connection is left open with the handshake and
    the request written. *)
Lemma upstreamExchange_Ok_inv (dest : Addr) (conn conn' : Conn) :
  upstreamExchange dest conn = (Ok tt, conn') ->
  canWrite 2 conn
  /\ (exists ver rsv atyp body,
        stream conn = [x05; x00] ++ [ver; x00; rsv; atyp] ++ body
                      ++ stream conn'
        /\ replyBody atyp body)
  /\ tx conn' = tx conn ++ [[x05; x01; x00]; connectRequest dest]
  /\ closed conn' = closed conn.
Proof.
  intros H. unfold upstreamExchange in H.
  apply bindOr_Write_Ok in H as [W1 H].
  read_step_or H resp r1 E1 Lr.
  rewrite (list_of_length_2 resp Lr) in E1.
  destruct (Byte.eqb (nth 0 resp x00) x05) eqn:V; [ | discriminate].
  destruct (Byte.eqb (nth 1 resp x00) x00) eqn:K; [ | discriminate].
  apply byte_eqb_eq in V, K. rewrite V, K in E1.
  cbn [negb orb] in H.
  apply bindOr_Write_Ok in H as [W2 H].
  read_step_or H reply r2 E2 Lp.
  rewrite (list_of_length_4 reply Lp) in E2.
  destruct (Byte.eqb (nth 1 reply x00) x00) eqn:St; [ | discriminate].
  apply byte_eqb_eq in St. rewrite St in E2.
  cbn [negb] in H. cbv zeta in H.
  rewrite atyp_switch in H.
  set (atyp := nth 3 reply x00) in *.
  assert (HW : canWrite 2 conn).
  { unfold canWrite in *. cbn [wbudget set_rx] in W2.
    destruct (wbudget conn) as [[ | n] | ]; cbn in *; lia. }
  assert (finish :
    forall (n : nat) (c3 : Conn),
      bindOr (ReadFull (n + 2)) closeAndFail (fun _ => ret tt) c3
      = (Ok tt, conn') ->
      exists tailb,
        length tailb = n + 2
        /\ stream c3 = tailb ++ stream conn'
        /\ tx conn' = tx c3 /\ closed conn' = closed c3).
  { intros n c3 Hf.
    read_step_or Hf tailb r E Ltl.
    unfold ret in Hf. injection Hf as <-.
    exists tailb. rewrite stream_set_rx. auto. }
  destruct (Byte.eqb atyp x01) eqn:T1;
    [ | destruct (Byte.eqb atyp x03) eqn:T3;
        [ | destruct (Byte.eqb atyp x04) eqn:T4; [ | discriminate]]].
  - apply byte_eqb_eq in T1. rewrite bind_ret in H.
    apply finish in H as (tailb & Ltl & Et & Tx & Cl).
    rewrite stream_set_rx in Et.
    split; [exact HW | ]. split.
    + exists (nth 0 reply x00), (nth 2 reply x00), atyp, tailb.
      split; [ | rewrite T1; now constructor].
      rewrite E1, E2, Et, <- ?app_assoc. reflexivity.
    + rewrite Tx, Cl. cbn. rewrite <- app_assoc. auto.
  - apply byte_eqb_eq in T3. rewrite bind_bindOr_assoc in H.
    read_step_or H lenByte r3 E3 Ll.
    rewrite bind_ret in H.
    apply finish in H as (tailb & Ltl & Et & Tx & Cl).
    rewrite stream_set_rx in Et.
    split; [exact HW | ]. split.
    + exists (nth 0 reply x00), (nth 2 reply x00), atyp,
        (nth 0 lenByte x00 :: tailb).
      split; [ | rewrite T3; now constructor].
      rewrite E1, E2, E3, Et, <- ?app_assoc.
      rewrite (list_of_length_1 lenByte Ll) at 1. reflexivity.
    + rewrite Tx, Cl. cbn. rewrite <- app_assoc. auto.
  - apply byte_eqb_eq in T4. rewrite bind_ret in H.
    apply finish in H as (tailb & Ltl & Et & Tx & Cl).
    rewrite stream_set_rx in Et.
    split; [exact HW | ]. split.
    + exists (nth 0 reply x00), (nth 2 reply x00), atyp, tailb.
      split; [ | rewrite T4; now constructor].
      rewrite E1, E2, Et, <- ?app_assoc. reflexivity.
    + rewrite Tx, Cl. cbn. rewrite <- app_assoc. auto.
Qed.

Lemma SetupFailure_not_passes (env : Env) (upstream : string) :
  SetupFailure env upstream -> ~ SetupPasses env upstream.
Proof.
  intros F (conn & D & W & ver & rsv & atyp & body & more & E & B).
  unfold canWrite in W.
  destruct F as [e D' | c D' F | c D' F | c D' F | c D' F | c D' F | c D' F
                 | c D' F1 F3 F4 | c D' F];
    rewrite D in D'; try discriminate D';
    injection D' as <-.
  - rewrite F in W. lia.
  - rewrite E in F. cbn in F. lia.
  - rewrite E in F. now apply F.
  - rewrite F in W. lia.
  - rewrite E in F. cbn in F. lia.
  - rewrite E in F. now apply F.
  - rewrite E in F1, F3, F4. cbn in F1, F3, F4.
    destruct B; contradiction.
  - apply (F body more).
    + rewrite E. reflexivity.
    + rewrite E. exact B.
Qed.

(** [dialThroughSocks], case by case: a connection is returned only when
    the setup passed every step, and then it is open, with the handshake and
    the request written; an error comes with no connection opened (the dial
    failed) or with the opened connection closed; there is no panic. *)
Lemma dialThroughSocks_cases (env : Env) (upstream : string) (dest : Addr) :
  match dialThroughSocks env upstream dest with
  | (Ok _, Some conn') =>
      SetupPasses env upstream
      /\ exists conn,
           Dial env upstream = inl conn
           /\ tx conn' = tx conn ++ [[x05; x01; x00]; connectRequest dest]
           /\ closed conn' = closed conn
  | (Ok _, None) => False
  | (Err e, None) => Dial env upstream = inr e
  | (Err e, Some conn') =>
      closed conn' = true /\ exists conn, Dial env upstream = inl conn
  | (Panic _, _) => False
  end.
Proof.
  unfold dialThroughSocks.
  destruct (Dial env upstream) as [conn | err] eqn:D; [ | reflexivity].
  pose proof (tidy_upstreamExchange dest conn) as T.
  destruct (upstreamExchange dest conn) as [[[] | e | s] conn'] eqn:X.
  - destruct (upstreamExchange_Ok_inv dest conn conn' X)
      as (W & (ver & rsv & atyp & body & E & B) & Tx & Cl).
    split.
    + exists conn. split; [exact D | ]. split; [exact W | ].
      exists ver, rsv, atyp, body, (stream conn'). auto.
    + exists conn. auto.
  - split; [exact T | eauto].
  - exact T.
Qed.

(** C2. The request written to the upstream for a domain-name destination:
    when [dialThroughSocks] returns a connection, the bytes of its second
    write are {0x05, 0x01, 0x00, 0x03}, the domain bytes and the big-endian
    port, with no length byte between the address type and the domain; they
    differ from the wire form {0x05, 0x01, 0x00, 0x03, length, domain,
    port}. *)
Theorem connect_request_domain_bytes
        (env : Env) (upstream : string) (dest : Addr) (conn sock : Conn) :
  Atyp dest = x03 ->
  Dial env upstream = inl conn ->
  dialThroughSocks env upstream dest = (Ok tt, Some sock) ->
  tx sock
  = tx conn ++ [[x05; x01; x00];
                [x05; x01; x00; x03] ++ AddrBytes dest
                ++ BigEndian_PutUint16 (Port dest)]
  /\ [x05; x01; x00; x03] ++ AddrBytes dest ++ BigEndian_PutUint16 (Port dest)
     <> wireRequest dest.
Proof.
  intros Hdom D R.
  pose proof (dialThroughSocks_cases env upstream dest) as C.
  rewrite R in C. destruct C as (_ & conn0 & D0 & Tx & _).
  rewrite D in D0. injection D0 as <-.
  rewrite connectRequest_bytes, Hdom in Tx.
  split; [exact Tx | ].
  intros E. apply (f_equal (@length byte)) in E.
  pose proof (connectRequest_domain_short dest Hdom) as L.
  rewrite connectRequest_bytes, Hdom in L. rewrite E in L. lia.
Qed.

(** A concrete run: the request written for the domain name "a", port 80. *)
Lemma connect_request_domain_bytes_witness :
  tx (mkConn [] [[x05; x01; x00]; [x05; x01; x00; x03; x61; x00; x50]]
        None false)
  = [] ++ [[x05; x01; x00];
           [x05; x01; x00; x03] ++ [x61] ++ BigEndian_PutUint16 80]
  /\ [x05; x01; x00; x03] ++ [x61] ++ BigEndian_PutUint16 80
     <> wireRequest (mkAddr x03 [x61] 80).
Proof.
  apply (connect_request_domain_bytes (worldOf acceptingUpstream)
           "127.0.0.1:1081" (mkAddr x03 [x61] 80) acceptingUpstream
           (mkConn [] [[x05; x01; x00]; [x05; x01; x00; x03; x61; x00; x50]]
              None false)).
  - reflexivity.
  - reflexivity.
  - reflexivity.
Defined.

(** C9. Chained mode, a failure at any step of the upstream setup (connect,
    handshake write or read, handshake answer, request write, reply read,
    reply status, reply address type, reply drain): [dialThroughSocks]
    returns an error and no connection, the connection it had opened, if
    any, is closed; [handleClient] then writes the reply with status 0x05 to
    the client and ends the session as a connect failure, without relay. *)
Theorem upstream_failure_closes_and_reports
        (env : Env) (client c1 c2 : Conn) (upstream : string) (dest : Addr) :
  upstream <> EmptyString ->
  handleHandshake client = (Ok tt, c1) ->
  readAddr c1 = (Ok dest, c2) ->
  SetupFailure env upstream ->
  exists e,
    fst (dialThroughSocks env upstream dest) = Err e
    /\ match snd (dialThroughSocks env upstream dest) with
       | Some conn' => closed conn' = true
       | None => Dial env upstream = inr e
       end
    /\ ended (handleClient env client upstream) = ConnectFailed e
    /\ destEnd (handleClient env client upstream)
       = snd (dialThroughSocks env upstream dest)
    /\ clientEnd (handleClient env client upstream)
       = Close (snd (writeReply x05 c2))
    /\ tx (clientEnd (handleClient env client upstream))
       = match wbudget c2 with
         | Some 0 => tx c2
         | _ => tx c2 ++ [[x05; x05; x00; x01; x00; x00; x00; x00; x00; x00]]
         end.
Proof.
  intros Hup Hh Hr F.
  apply SetupFailure_not_passes in F.
  assert (Hne : String.eqb upstream EmptyString = false)
    by (apply String.eqb_neq; exact Hup).
  pose proof (dialThroughSocks_cases env upstream dest) as C.
  unfold handleClient. rewrite Hh, Hr, Hne. cbn [negb].
  destruct (LookupIP env _) as [ips lerr].
  destruct (dialThroughSocks env upstream dest) as [[[] | e | s] sock].
  - destruct sock as [conn' | ]; [ | contradiction].
    destruct C as [P _]. contradiction.
  - exists e. cbn [fst snd].
    split; [reflexivity | ].
    split; [destruct sock; [apply C | exact C] | ].
    destruct (writeReply x05 c2) as [r c3] eqn:Wr. cbn [ended destEnd clientEnd snd].
    repeat split.
    destruct (wbudget c2) as [[ | k] | ] eqn:W.
    + rewrite writeReply_failed in Wr by exact W. now injection Wr as <- <-.
    + assert (W' : wbudget c2 <> Some 0) by congruence.
      destruct (writeReply_written x05 c2 W') as (_ & T & _).
      rewrite Wr in T. exact T.
    + assert (W' : wbudget c2 <> Some 0) by congruence.
      destruct (writeReply_written x05 c2 W') as (_ & T & _).
      rewrite Wr in T. exact T.
  - contradiction.
Qed.

(** A concrete run: the upstream answers the request with status 0x01; the
    upstream connection is closed, the client gets the reply with status
    0x05, and the session ends without relay. *)
Lemma upstream_failure_closes_and_reports_witness :
  exists e,
    fst (dialThroughSocks (worldOf refusingUpstream) "127.0.0.1:1081"
           (mkAddr x01 [x5d; xb8; xd8; x22] 80)) = Err e
    /\ match snd (dialThroughSocks (worldOf refusingUpstream) "127.0.0.1:1081"
                    (mkAddr x01 [x5d; xb8; xd8; x22] 80)) with
       | Some conn' => closed conn' = true
       | None => Dial (worldOf refusingUpstream) "127.0.0.1:1081" = inr e
       end
    /\ ended (handleClient (worldOf refusingUpstream) clientIPv4
                "127.0.0.1:1081") = ConnectFailed e
    /\ destEnd (handleClient (worldOf refusingUpstream) clientIPv4
                  "127.0.0.1:1081")
       = snd (dialThroughSocks (worldOf refusingUpstream) "127.0.0.1:1081"
                (mkAddr x01 [x5d; xb8; xd8; x22] 80))
    /\ clientEnd (handleClient (worldOf refusingUpstream) clientIPv4
                    "127.0.0.1:1081")
       = Close (snd (writeReply x05 (mkConn [] [[x05; x00]] None false)))
    /\ tx (clientEnd (handleClient (worldOf refusingUpstream) clientIPv4
                        "127.0.0.1:1081"))
       = [[x05; x00]; [x05; x05; x00; x01; x00; x00; x00; x00; x00; x00]].
Proof.
  apply (upstream_failure_closes_and_reports (worldOf refusingUpstream)
           clientIPv4
           (mkConn [[x05; x01; x00; x01; x5d; xb8; xd8; x22; x00; x50]]
              [[x05; x00]] None false)
           (mkConn [] [[x05; x00]] None false)
           "127.0.0.1:1081" (mkAddr x01 [x5d; xb8; xd8; x22] 80)).
  - discriminate.
  - reflexivity.
  - reflexivity.
  - apply (fail_reply_status _ _ refusingUpstream).
    + reflexivity.
    + cbn. discriminate.
Defined.

(** ** Direct mode: the address that is dialled *)

Lemma To4_Some (ip p4 : IP) :
  To4 ip = Some p4 ->
  length p4 = 4 /\ (length ip = 4 \/ length ip = 16).
Proof.
  unfold To4. destruct (length ip =? 4) eqn:E4.
  - apply Nat.eqb_eq in E4. intros H. injection H as <-. auto.
  - destruct (length ip =? 16) eqn:E16; [ | discriminate].
    apply Nat.eqb_eq in E16.
    destruct (_ && _ && _ && _); [ | discriminate].
    intros H.
    assert (Hp : p4 = firstn 4 (skipn 12 ip)) by congruence.
    rewrite Hp, length_firstn, length_skipn. lia.
Qed.

Lemma append_dot_nonempty (s t : string) :
  (s ++ "." ++ t)%string <> EmptyString.
Proof. destruct s; discriminate. Qed.

Lemma dotted_nonempty (p4 : list byte) : dotted p4 <> EmptyString.
Proof. unfold dotted. apply append_dot_nonempty. Qed.

(** The text of an IPv4 address is its dotted quad. *)
Lemma IP_String_IPv4 (env : Env) (ip p4 : IP) :
  To4 ip = Some p4 -> IP_String env ip = dotted p4.
Proof.
  intros H. destruct (To4_Some ip p4 H) as [L4 Lip].
  unfold IP_String. rewrite H.
  assert (E0 : (length ip =? 0) = false)
    by (apply Nat.eqb_neq; lia).
  assert (E : negb (length ip =? 4) && negb (length ip =? 16) = false).
  { destruct Lip as [-> | ->]; reflexivity. }
  rewrite E0, E. apply Nat.eqb_eq in L4. now rewrite L4.
Qed.

Lemma firstTo4_find (env : Env) (ips : list IP) :
  firstTo4 env ips
  = match find isIPv4 ips with
    | Some ip => IP_String env ip
    | None => EmptyString
    end.
Proof.
  induction ips as [ | ip rest IH]; [reflexivity | ].
  cbn [firstTo4 find]. unfold isIPv4 at 1.
  destruct (To4 ip); [reflexivity | exact IH].
Qed.

(** The address chosen by [handleClient] is the text of the preferred one. *)
Lemma ipToUse_preferred (env : Env) (ips : list IP) :
  ips <> [] ->
  exists ip,
    preferredIP ips = Some ip /\ ipToUse env ips = IP_String env ip.
Proof.
  intros Hne. unfold ipToUse, preferredIP. cbv zeta.
  rewrite firstTo4_find.
  destruct (find isIPv4 ips) as [ip | ] eqn:F.
  - exists ip. split; [reflexivity | ].
    apply find_some in F as [_ H4]. unfold isIPv4 in H4.
    destruct (To4 ip) as [p4 | ] eqn:T; [ | discriminate].
    rewrite (IP_String_IPv4 env ip p4 T).
    destruct (String.eqb (dotted p4) EmptyString) eqn:E; [ | reflexivity].
    apply String.eqb_eq in E. now apply dotted_nonempty in E.
  - destruct ips as [ | ip0 rest]; [contradiction | ].
    exists ip0. split; reflexivity.
Qed.

Lemma ipToUse_nil (env : Env) : ipToUse env [] = EmptyString.
Proof. reflexivity. Qed.

(** The direct-mode session after a good handshake and request: the host
    looked up is the string of the raw address bytes, and the address dialled
    is made of the resolver's answer and the port. *)
Lemma handleClient_direct (env : Env) (client c1 c2 : Conn) (dest : Addr) :
  handleHandshake client = (Ok tt, c1) ->
  readAddr c1 = (Ok dest, c2) ->
  lookedUp (handleClient env client EmptyString)
  = Some (string_of_list_byte (AddrBytes dest))
  /\ dialed (handleClient env client EmptyString)
     = Some (JoinHostPort
               (ipToUse env
                  (fst (LookupIP env (string_of_list_byte (AddrBytes dest)))))
               (Sprint (Port dest))).
Proof.
  intros Hh Hr. unfold handleClient. rewrite Hh, Hr.
  change (String.eqb EmptyString EmptyString) with true. cbn [negb].
  destruct (LookupIP env _) as [ips lerr]. cbn [fst].
  destruct (Dial env _) as [conn | err].
  - destruct (writeReply x00 c2) as [[[] | e | s] c3]; split; reflexivity.
  - destruct (writeReply x05 c2) as [r c3]; split; reflexivity.
Qed.

(** C5. Direct mode with a non-empty resolution: the address dialled is the
    text of the first IPv4 address of the list if there is one, otherwise of
    the first address, joined with the port. *)
Theorem direct_mode_prefers_first_IPv4
        (env : Env) (client c1 c2 : Conn) (dest : Addr)
        (ips : list IP) (lerr : option error) :
  handleHandshake client = (Ok tt, c1) ->
  readAddr c1 = (Ok dest, c2) ->
  LookupIP env (string_of_list_byte (AddrBytes dest)) = (ips, lerr) ->
  ips <> [] ->
  exists ip,
    preferredIP ips = Some ip
    /\ ipToUse env ips = IP_String env ip
    /\ dialed (handleClient env client EmptyString)
       = Some (JoinHostPort (IP_String env ip) (Sprint (Port dest))).
Proof.
  intros Hh Hr Hl Hne.
  destruct (ipToUse_preferred env ips Hne) as (ip & P & U).
  exists ip. split; [exact P | ]. split; [exact U | ].
  destruct (handleClient_direct env client c1 c2 dest Hh Hr) as [_ D].
  rewrite D, Hl. cbn [fst]. now rewrite U.
Qed.

(** A concrete run: the resolver answers with an IPv6 address, then
    93.184.216.34; the address dialled is 93.184.216.34:80. *)
Lemma direct_mode_prefers_first_IPv4_witness :
  exists ip,
    preferredIP (fst (LookupIP resolvingWorld "a")) = Some ip
    /\ ipToUse resolvingWorld (fst (LookupIP resolvingWorld "a"))
       = IP_String resolvingWorld ip
    /\ dialed (handleClient resolvingWorld clientDomain EmptyString)
       = Some (JoinHostPort (IP_String resolvingWorld ip) (Sprint 80)).
Proof.
  apply (direct_mode_prefers_first_IPv4 resolvingWorld clientDomain
           (mkConn [[x05; x01; x00; x03; x01; x61; x00; x50]]
              [[x05; x00]] None false)
           (mkConn [] [[x05; x00]] None false)
           (mkAddr x03 [x61] 80)
           (fst (LookupIP resolvingWorld "a")) None).
  - reflexivity.
  - reflexivity.
  - reflexivity.
  - discriminate.
Defined.

Example direct_mode_dials_ipv4_of_resolution :
  dialed (handleClient resolvingWorld clientDomain EmptyString)
  = Some "93.184.216.34:80"%string.
Proof. reflexivity. Qed.

Lemma JoinHostPort_empty (port : string) :
  JoinHostPort EmptyString port = (":" ++ port)%string.
Proof. reflexivity. Qed.

(** With a host the joined string never begins with the colon. *)
Lemma JoinHostPort_host (host port : string) :
  host <> EmptyString ->
  JoinHostPort host port <> (":" ++ port)%string.
Proof.
  intros Hne. unfold JoinHostPort.
  destruct (hasByte ":" host) eqn:E.
  - discriminate.
  - destruct host as [ | a r]; [contradiction | ].
    cbn [hasByte] in E. apply orb_false_iff in E as [Ea _].
    cbn. intros H. injection H as Ha _.
    rewrite Ha in Ea. discriminate.
Qed.

(** The text of a 4-byte or 16-byte address is not empty, when the library's
    text of a 16-byte address is not. *)
Lemma IP_String_nonempty (env : Env) (ip : IP) :
  length ip = 4 \/ length ip = 16 ->
  Addr16_String env ip <> EmptyString ->
  IP_String env ip <> EmptyString.
Proof.
  intros L H16.
  destruct (To4 ip) as [p4 | ] eqn:T.
  - rewrite (IP_String_IPv4 env ip p4 T). apply dotted_nonempty.
  - unfold IP_String. rewrite T.
    destruct L as [L | L]; rewrite L; cbn; exact H16.
Qed.

(** C4. Direct mode with an IPv4 or IPv6 destination, as the code has it:
    the raw address bytes are given to the resolver as a host name, and the
    address dialled is made of the resolver's answer alone.  When the
    resolver has no address for that host, the address dialled is the port
    with an empty host, not the IP address of the request. *)
Theorem direct_mode_resolves_raw_address
        (env : Env) (client c1 c2 : Conn) (dest : Addr)
        (lerr : option error) :
  handleHandshake client = (Ok tt, c1) ->
  readAddr c1 = (Ok dest, c2) ->
  Atyp dest = x01 \/ Atyp dest = x04 ->
  Addr16_String env (AddrBytes dest) <> EmptyString ->
  LookupIP env (string_of_list_byte (AddrBytes dest)) = ([], lerr) ->
  lookedUp (handleClient env client EmptyString)
  = Some (string_of_list_byte (AddrBytes dest))
  /\ dialed (handleClient env client EmptyString)
     = Some (":" ++ Sprint (Port dest))%string
  /\ dialed (handleClient env client EmptyString)
     <> Some (JoinHostPort (IP_String env (AddrBytes dest))
                (Sprint (Port dest))).
Proof.
  intros Hh Hr Hty H16 Hl.
  destruct (handleClient_direct env client c1 c2 dest Hh Hr) as [Lk D].
  rewrite Hl in D. cbn [fst] in D.
  rewrite ipToUse_nil, JoinHostPort_empty in D.
  split; [exact Lk | ]. split; [exact D | ].
  rewrite D. intros E. injection E as E. symmetry in E. revert E.
  apply JoinHostPort_host, IP_String_nonempty; [ | exact H16].
  destruct (readAddr_Ok_inv c1 c2 dest Hr) as ([_ V] & _).
  destruct Hty as [T | T], V as [[T' L] | [[T' L] | [T' L]]];
    rewrite T in T'; try discriminate T'; auto.
Qed.

(** A concrete run: the request is for 93.184.216.34:80, the resolver has
    no address for the four raw bytes, and the address dialled is ":80". *)
Lemma direct_mode_resolves_raw_address_witness :
  lookedUp (handleClient (worldOf acceptingUpstream) clientIPv4 EmptyString)
  = Some (string_of_list_byte [x5d; xb8; xd8; x22])
  /\ dialed (handleClient (worldOf acceptingUpstream) clientIPv4 EmptyString)
     = Some (":" ++ Sprint 80)%string
  /\ dialed (handleClient (worldOf acceptingUpstream) clientIPv4 EmptyString)
     <> Some (JoinHostPort
                (IP_String (worldOf acceptingUpstream) [x5d; xb8; xd8; x22])
                (Sprint 80)).
Proof.
  apply (direct_mode_resolves_raw_address (worldOf acceptingUpstream)
           clientIPv4
           (mkConn [[x05; x01; x00; x01; x5d; xb8; xd8; x22; x00; x50]]
              [[x05; x00]] None false)
           (mkConn [] [[x05; x00]] None false)
           (mkAddr x01 [x5d; xb8; xd8; x22] 80)
           (Some (OpError "lookup"))).
  - reflexivity.
  - reflexivity.
  - left. reflexivity.
  - discriminate.
  - reflexivity.
Defined.

Example direct_mode_ipv4_request_dials_empty_host :
  dialed (handleClient (worldOf acceptingUpstream) clientIPv4 EmptyString)
  = Some ":80"%string
  /\ JoinHostPort (IP_String (worldOf acceptingUpstream) [x5d; xb8; xd8; x22])
       (Sprint 80)
     = "93.184.216.34:80"%string.
Proof. split; reflexivity. Qed.

(** ** More on the handshake: every path *)

(** [handleHandshake] after its [Read] returned [seg], all checks still to
    do. *)
Lemma handleHandshake_seg (c : Conn) (seg : list byte) (rest : list (list byte)) :
  rx c = seg :: rest ->
  handleHandshake c =
  let c1 := set_rx (if length seg <=? 256 then rest
                    else skipn 256 seg :: rest) c in
  if (Nat.min (length seg) 256 <? 2)
     || negb (Byte.eqb (nth 0 (filled seg) x00) x05)
  then (Err (Errorf "invalid version"), c1)
  else
    match slice (filled seg) 2
            (N.to_nat (Byte.to_N (uint8_add x02 (nth 1 (filled seg) x00)))) with
    | None => (Panic "slice bounds out of range", c1)
    | Some methods =>
        if negb (Contains1 methods x00)
        then (Err (Errorf "no supported auth method"), c1)
        else (_ <- Write [x05; x00] ;; ret tt) c1
    end.
Proof.
  intros Hrx. unfold handleHandshake, bind at 1, Read. rewrite Hrx.
  rewrite length_make. fold (filled seg). cbv zeta.
  assert (E : (if length seg <=? 256 then rest
               else skipn (Nat.min (length seg) 256) seg :: rest)
              = (if length seg <=? 256 then rest else skipn 256 seg :: rest)).
  { destruct (length seg <=? 256) eqn:L; [reflexivity | ].
    apply Nat.leb_gt in L. rewrite Nat.min_r by lia. reflexivity. }
  rewrite E.
  destruct (_ || _); [reflexivity | ].
  destruct (slice _ _ _); [ | reflexivity].
  destruct (negb _); reflexivity.
Qed.

Lemma Write_tt_cases (b : list byte) (c : Conn) :
  (fst ((_ <- Write b ;; ret tt) c) = Ok tt
   /\ tx (snd ((_ <- Write b ;; ret tt) c)) = tx c ++ [b]
   /\ rx (snd ((_ <- Write b ;; ret tt) c)) = rx c
   /\ closed (snd ((_ <- Write b ;; ret tt) c)) = closed c)
  \/ (wbudget c = Some 0
      /\ (_ <- Write b ;; ret tt) c = (Err (OpError "write"), c)).
Proof.
  destruct (wbudget c) as [[ | k] | ] eqn:W.
  - right. split; [reflexivity | now apply Write_tt_failed].
  - left. apply Write_tt_ok. congruence.
  - left. apply Write_tt_ok. congruence.
Qed.

(** The handshake writes its answer when it succeeds, and nothing
    otherwise. *)
Lemma handshake_writes_only_tx (c : Conn) :
  (fst (handleHandshake c) = Ok tt
   /\ tx (snd (handleHandshake c)) = tx c ++ [[x05; x00]])
  \/ (fst (handleHandshake c) <> Ok tt
      /\ tx (snd (handleHandshake c)) = tx c).
Proof.
  destruct (rx c) as [ | seg rest] eqn:Hrx.
  - unfold handleHandshake, bind, Read. rewrite Hrx. cbn.
    right. split; [discriminate | reflexivity].
  - rewrite (handleHandshake_seg c seg rest Hrx). cbv zeta.
    set (c1 := set_rx _ c).
    destruct (_ || _); [right; split; [discriminate | reflexivity] | ].
    destruct (slice _ _ _); [ | right; split; [discriminate | reflexivity]].
    destruct (negb _); [right; split; [discriminate | reflexivity] | ].
    destruct (Write_tt_cases [x05; x00] c1) as [(R & T & _) | [W E]].
    + left. split; [exact R | exact T].
    + rewrite E. right. split; [discriminate | reflexivity].
Qed.

(** X1. Whatever the client sends, [handleHandshake] writes the answer
    {0x05, 0x00} exactly when it succeeds and writes nothing on every other
    path (read error, bad version, no acceptable method, failed write,
    panic); it never closes the connection. *)
Theorem handshake_writes_only_on_success (c : Conn) :
  ((fst (handleHandshake c) = Ok tt
    /\ tx (snd (handleHandshake c)) = tx c ++ [[x05; x00]])
   \/ (fst (handleHandshake c) <> Ok tt
       /\ tx (snd (handleHandshake c)) = tx c))
  /\ closed (snd (handleHandshake c)) = closed c.
Proof.
  destruct (rx c) as [ | seg rest] eqn:Hrx.
  - unfold handleHandshake, bind, Read. rewrite Hrx. cbn.
    split; [right; split; [discriminate | reflexivity] | reflexivity].
  - rewrite (handleHandshake_seg c seg rest Hrx). cbv zeta.
    set (c1 := set_rx _ c).
    destruct (_ || _);
      [split; [right; split; [discriminate | reflexivity] | reflexivity] | ].
    destruct (slice _ _ _);
      [ | split; [right; split; [discriminate | reflexivity] | reflexivity]].
    destruct (negb _);
      [split; [right; split; [discriminate | reflexivity] | reflexivity] | ].
    destruct (Write_tt_cases [x05; x00] c1) as [(R & T & _ & Cl) | [W E]].
    + split; [left; split; [exact R | exact T] | exact Cl].
    + rewrite E. split; [right; split; [discriminate | reflexivity] | reflexivity].
Qed.

(** X2. A first read of fewer than two bytes, or one whose first byte is
    not 5, ends the handshake with "invalid version" and nothing written,
    whatever segments follow: a handshake split over two segments is not put
    together. *)
Theorem handshake_invalid_version
        (c : Conn) (seg : list byte) (rest : list (list byte)) :
  rx c = seg :: rest ->
  length seg < 2 \/ nth 0 seg x00 <> x05 ->
  fst (handleHandshake c) = Err (Errorf "invalid version")
  /\ tx (snd (handleHandshake c)) = tx c.
Proof.
  intros Hrx Hbad.
  rewrite (handleHandshake_seg c seg rest Hrx). cbv zeta.
  assert (T : (Nat.min (length seg) 256 <? 2)
              || negb (Byte.eqb (nth 0 (filled seg) x00) x05) = true).
  { apply orb_true_iff.
    destruct (Nat.lt_ge_cases (length seg) 2) as [Hlt | Hge].
    - left. apply Nat.ltb_lt. lia.
    - right. destruct Hbad as [Hs | Hv]; [lia | ].
      rewrite nth_filled_lt by lia.
      apply negb_true_iff, not_true_is_false.
      intros E. apply byte_eqb_eq in E. contradiction. }
  rewrite T. split; reflexivity.
Qed.

(** A concrete run: the handshake bytes 05 | 01 00 arrive in two segments. *)
Lemma handshake_invalid_version_witness :
  fst (handleHandshake (peer [[x05]; [x01; x00]]))
  = Err (Errorf "invalid version")
  /\ tx (snd (handleHandshake (peer [[x05]; [x01; x00]]))) = [].
Proof.
  apply (handshake_invalid_version (peer [[x05]; [x01; x00]]) [x05]
           [[x01; x00]]).
  - reflexivity.
  - left. cbn. lia.
Defined.

(** The method list cut from the buffer is the one the client sent, when the
    message came in full. *)
Lemma methods_of_complete_message (seg : list byte) (N : nat) :
  2 + N <= Nat.min (length seg) 256 ->
  firstn N (skipn 2 (filled seg)) = firstn N (skipn 2 seg).
Proof.
  intros H. unfold filled. set (n := Nat.min (length seg) 256) in *.
  assert (Ln : length (firstn n seg) = n)
    by (rewrite length_firstn; subst n; lia).
  rewrite skipn_app, Ln.
  replace (2 - n) with 0 by lia. rewrite skipn_O.
  rewrite firstn_app, length_skipn, Ln.
  replace (N - (n - 2)) with 0 by lia.
  rewrite firstn_O, app_nil_r.
  replace n with (2 + (n - 2)) at 1 by lia.
  rewrite <- firstn_skipn_comm, firstn_firstn.
  f_equal. lia.
Qed.

(** X3. A complete negotiation message (version 5, [N <= 253] methods, all
    of them in the first read) that offers method 0x00 is accepted on a
    connection that can be written to: the answer {0x05, 0x00} is written. *)
Theorem handshake_accepts_offered_noauth
        (c : Conn) (seg : list byte) (rest : list (list byte)) :
  rx c = seg :: rest ->
  nth 0 seg x00 = x05 ->
  N.to_nat (Byte.to_N (nth 1 seg x00)) <= 253 ->
  2 + N.to_nat (Byte.to_N (nth 1 seg x00)) <= Nat.min (length seg) 256 ->
  In x00 (firstn (N.to_nat (Byte.to_N (nth 1 seg x00))) (skipn 2 seg)) ->
  wbudget c <> Some 0 ->
  fst (handleHandshake c) = Ok tt
  /\ tx (snd (handleHandshake c)) = tx c ++ [[x05; x00]].
Proof.
  intros Hrx H0 HN Hfull Hin W.
  assert (Hn : 2 <= Nat.min (length seg) 256) by lia.
  rewrite (handleHandshake_Read c seg rest Hrx Hn H0). cbv zeta.
  rewrite methods_in_range by exact HN.
  rewrite methods_of_complete_message by exact Hfull.
  apply Contains1_In in Hin. rewrite Hin. cbn [negb].
  set (c1 := set_rx _ c).
  destruct (Write_tt_ok [x05; x00] c1 W) as (R & T & _).
  split; [exact R | exact T].
Qed.

(** A concrete run: two methods offered, 0x02 and 0x00. *)
Lemma handshake_accepts_offered_noauth_witness :
  fst (handleHandshake (peer [[x05; x02; x02; x00]])) = Ok tt
  /\ tx (snd (handleHandshake (peer [[x05; x02; x02; x00]])))
     = [] ++ [[x05; x00]].
Proof.
  apply (handshake_accepts_offered_noauth (peer [[x05; x02; x02; x00]])
           [x05; x02; x02; x00] []).
  - reflexivity.
  - reflexivity.
  - cbn. lia.
  - cbn. lia.
  - right. left. reflexivity.
  - cbn. discriminate.
Defined.

(** X4. A complete negotiation message (version 5, [N <= 253] methods, all
    of them in the first read) that does not offer method 0x00 is rejected
    with "no supported auth method" and nothing is written, whatever follows
    the methods in the segment. *)
Theorem handshake_rejects_without_noauth
        (c : Conn) (seg : list byte) (rest : list (list byte)) :
  rx c = seg :: rest ->
  nth 0 seg x00 = x05 ->
  N.to_nat (Byte.to_N (nth 1 seg x00)) <= 253 ->
  2 + N.to_nat (Byte.to_N (nth 1 seg x00)) <= Nat.min (length seg) 256 ->
  ~ In x00 (firstn (N.to_nat (Byte.to_N (nth 1 seg x00))) (skipn 2 seg)) ->
  fst (handleHandshake c) = Err (Errorf "no supported auth method")
  /\ tx (snd (handleHandshake c)) = tx c.
Proof.
  intros Hrx H0 HN Hfull Hnin.
  assert (Hn : 2 <= Nat.min (length seg) 256) by lia.
  rewrite (handleHandshake_Read c seg rest Hrx Hn H0). cbv zeta.
  rewrite methods_in_range by exact HN.
  rewrite methods_of_complete_message by exact Hfull.
  destruct (Contains1 _ x00) eqn:E.
  - apply Contains1_In in E. contradiction.
  - split; reflexivity.
Qed.

(** A concrete run: one method offered, 0x02, followed by a zero byte that
    is not part of the method list. *)
Lemma handshake_rejects_without_noauth_witness :
  fst (handleHandshake (peer [[x05; x01; x02; x00]]))
  = Err (Errorf "no supported auth method")
  /\ tx (snd (handleHandshake (peer [[x05; x01; x02; x00]]))) = [].
Proof.
  apply (handshake_rejects_without_noauth (peer [[x05; x01; x02; x00]])
           [x05; x01; x02; x00] []).
  - reflexivity.
  - reflexivity.
  - cbn. lia.
  - cbn. lia.
  - cbn. intros [H | []]. discriminate.
Defined.

(** What the handshake leaves to read: the first segment is gone, up to its
    first 256 bytes, on every path. *)
Lemma handshake_rx (c : Conn) (seg : list byte) (rest : list (list byte)) :
  rx c = seg :: rest ->
  rx (snd (handleHandshake c))
  = if length seg <=? 256 then rest else skipn 256 seg :: rest.
Proof.
  intros Hrx. rewrite (handleHandshake_seg c seg rest Hrx). cbv zeta.
  set (c1 := set_rx _ c).
  destruct (_ || _); [reflexivity | ].
  destruct (slice _ _ _); [ | reflexivity].
  destruct (negb _); [reflexivity | ].
  destruct (Write_tt_cases [x05; x00] c1) as [(_ & _ & R & _) | [_ E]].
  - rewrite R. reflexivity.
  - rewrite E. reflexivity.
Qed.

(** X5. The handshake takes the whole first read from the stream, up to 256
    bytes, whatever method count the message declares and however the
    handshake ends: bytes that follow the method list in the same segment
    are not left for the request parser. *)
Theorem handshake_takes_first_read
        (c : Conn) (seg : list byte) (rest : list (list byte)) :
  rx c = seg :: rest ->
  stream (snd (handleHandshake c)) = skipn 256 seg ++ concat rest.
Proof.
  intros Hrx. unfold stream. rewrite (handshake_rx c seg rest Hrx).
  destruct (length seg <=? 256) eqn:L.
  - apply Nat.leb_le in L. rewrite skipn_all2 by exact L. reflexivity.
  - reflexivity.
Qed.

(** A concrete run: the handshake and the request arrive in one segment, and
    nothing is left after the handshake. *)
Lemma handshake_takes_first_read_witness :
  stream (snd (handleHandshake
                 (peer [[x05; x01; x00;
                         x05; x01; x00; x01; x5d; xb8; xd8; x22; x00; x50]])))
  = skipn 256 [x05; x01; x00;
               x05; x01; x00; x01; x5d; xb8; xd8; x22; x00; x50]
    ++ concat [].
Proof.
  apply (handshake_takes_first_read
           (peer [[x05; x01; x00;
                   x05; x01; x00; x01; x5d; xb8; xd8; x22; x00; x50]])
           [x05; x01; x00; x05; x01; x00; x01; x5d; xb8; xd8; x22; x00; x50]
           []).
  reflexivity.
Defined.

Lemma readAddr_no_input (c : Conn) :
  rx c = [] ->
  fst (readAddr c) = Err EOF /\ tx (snd (readAddr c)) = tx c.
Proof.
  intros Hrx. unfold readAddr, bind, ReadFull. rewrite Hrx. cbn.
  split; reflexivity.
Qed.

(** X6. A client that sends its handshake and its request in one segment of
    at most 256 bytes, and nothing after, gets the handshake answer and then
    loses the session: the request went with the handshake's read,
    [readAddr] meets the end of the stream, and nothing is looked up or
    dialled. *)
Theorem pipelined_request_is_lost
        (env : Env) (client : Conn) (upstream : string) (seg : list byte) :
  rx client = [seg] ->
  length seg <= 256 ->
  fst (handleHandshake client) = Ok tt ->
  ended (handleClient env client upstream) = RequestFailed EOF
  /\ tx (clientEnd (handleClient env client upstream))
     = tx client ++ [[x05; x00]]
  /\ lookedUp (handleClient env client upstream) = None
  /\ dialed (handleClient env client upstream) = None.
Proof.
  intros Hrx Hlen Hok.
  pose proof (handshake_rx client seg [] Hrx) as R.
  apply Nat.leb_le in Hlen. rewrite Hlen in R.
  destruct (handshake_writes_only_tx client) as [[_ T] | [Hno _]];
    [ | contradiction].
  unfold handleClient.
  destruct (handleHandshake client) as [r c1]. cbn [fst snd] in *. subst r.
  destruct (readAddr_no_input c1 R) as [E Tx].
  destruct (readAddr c1) as [r2 c2]. cbn [fst snd] in *. subst r2.
  cbn. rewrite Tx, T. auto.
Qed.

(** A concrete run: handshake and CONNECT request in one segment. *)
Lemma pipelined_request_is_lost_witness :
  ended (handleClient (worldOf acceptingUpstream)
           (peer [[x05; x01; x00;
                   x05; x01; x00; x01; x5d; xb8; xd8; x22; x00; x50]])
           EmptyString) = RequestFailed EOF
  /\ tx (clientEnd (handleClient (worldOf acceptingUpstream)
           (peer [[x05; x01; x00;
                   x05; x01; x00; x01; x5d; xb8; xd8; x22; x00; x50]])
           EmptyString)) = [] ++ [[x05; x00]]
  /\ lookedUp (handleClient (worldOf acceptingUpstream)
           (peer [[x05; x01; x00;
                   x05; x01; x00; x01; x5d; xb8; xd8; x22; x00; x50]])
           EmptyString) = None
  /\ dialed (handleClient (worldOf acceptingUpstream)
           (peer [[x05; x01; x00;
                   x05; x01; x00; x01; x5d; xb8; xd8; x22; x00; x50]])
           EmptyString) = None.
Proof.
  apply (pipelined_request_is_lost (worldOf acceptingUpstream)
           (peer [[x05; x01; x00;
                   x05; x01; x00; x01; x5d; xb8; xd8; x22; x00; x50]])
           EmptyString
           [x05; x01; x00; x05; x01; x00; x01; x5d; xb8; xd8; x22; x00; x50]).
  - reflexivity.
  - cbn. lia.
  - reflexivity.
Defined.

(** ** More on the request parser *)

Lemma readsOnly_ReadFull (n : nat) : readsOnly (ReadFull n).
Proof.
  intros c. unfold ReadFull.
  destruct (readLoop (rx c) n []) as [got rest].
  destruct (length got =? n); [repeat split; discriminate | ].
  destruct got; repeat split; discriminate.
Qed.

Lemma readsOnly_ret {A} (a : A) : readsOnly (ret a).
Proof. intros c. repeat split. discriminate. Qed.

Lemma readsOnly_fail {A} (e : error) : readsOnly (@fail A e).
Proof. intros c. repeat split. discriminate. Qed.

Lemma readsOnly_bind {A B} (m : M A) (k : A -> M B) :
  readsOnly m -> (forall a, readsOnly (k a)) -> readsOnly (bind m k).
Proof.
  intros Hm Hk c. unfold bind.
  destruct (Hm c) as (P & T & W & Cl).
  destruct (m c) as [[a | e | s] c1]; cbn [fst snd] in *.
  - destruct (Hk a c1) as (P' & T' & W' & Cl').
    repeat split; [exact P' | congruence ..].
  - repeat split; [discriminate | assumption ..].
  - exfalso. exact (P s eq_refl).
Qed.

Lemma readsOnly_if {A} (b : bool) (m1 m2 : M A) :
  readsOnly m1 -> readsOnly m2 -> readsOnly (if b then m1 else m2).
Proof. destruct b; auto. Qed.

Create HintDb reads.

#[local] Hint Resolve readsOnly_ReadFull readsOnly_ret readsOnly_fail
  readsOnly_bind readsOnly_if : reads.

Lemma readsOnly_readAddr : readsOnly readAddr.
Proof.
  unfold readAddr.
  apply readsOnly_bind; [auto with reads | intros header].
  apply readsOnly_if; [auto with reads | ].
  cbv zeta. apply readsOnly_bind; [rewrite atyp_switch | ]; auto 8 with reads.
Qed.

(** X7. [readAddr] only reads: on every input it returns without a panic
    and leaves the bytes written to the client, the connection's ability to
    write and its open or closed state untouched. *)
Theorem readAddr_only_reads (c : Conn) :
  (forall msg, fst (readAddr c) <> Panic msg)
  /\ tx (snd (readAddr c)) = tx c
  /\ wbudget (snd (readAddr c)) = wbudget c
  /\ closed (snd (readAddr c)) = closed c.
Proof. apply readsOnly_readAddr. Qed.

Lemma streamOnly_ReadFull (n : nat) : streamOnly (ReadFull n).
Proof.
  intros c1 c2 Hs.
  destruct (Nat.le_gt_cases n (length (stream c1))) as [Hle | Hgt].
  - destruct (ReadFull_enough n c1 Hle) as (r1 & S1 & E1).
    rewrite Hs in Hle.
    destruct (ReadFull_enough n c2 Hle) as (r2 & S2 & E2).
    rewrite E1, E2. cbn [fst snd]. rewrite !stream_set_rx, S1, S2, Hs. auto.
  - destruct (ReadFull_short n c1 Hgt) as (r1 & S1 & E1).
    rewrite Hs in Hgt.
    destruct (ReadFull_short n c2 Hgt) as (r2 & S2 & E2).
    rewrite E1, E2. cbn [fst snd]. rewrite !stream_set_rx, S1, S2, Hs. auto.
Qed.

Lemma streamOnly_ret {A} (a : A) : streamOnly (ret a).
Proof. intros c1 c2 Hs. auto. Qed.

Lemma streamOnly_fail {A} (e : error) : streamOnly (@fail A e).
Proof. intros c1 c2 Hs. auto. Qed.

Lemma streamOnly_bind {A B} (m : M A) (k : A -> M B) :
  streamOnly m -> (forall a, streamOnly (k a)) -> streamOnly (bind m k).
Proof.
  intros Hm Hk c1 c2 Hs. unfold bind.
  destruct (Hm c1 c2 Hs) as [F S].
  destruct (m c1) as [[a1 | e1 | s1] d1], (m c2) as [[a2 | e2 | s2] d2];
    cbn [fst snd] in *; try discriminate F.
  - injection F as <-. apply Hk. exact S.
  - injection F as ->. split; [reflexivity | exact S].
  - injection F as ->. split; [reflexivity | exact S].
Qed.

Lemma streamOnly_if {A} (b : bool) (m1 m2 : M A) :
  streamOnly m1 -> streamOnly m2 -> streamOnly (if b then m1 else m2).
Proof. destruct b; auto. Qed.

#[local] Hint Resolve streamOnly_ReadFull streamOnly_ret streamOnly_fail
  streamOnly_bind streamOnly_if : reads.

Lemma streamOnly_readAddr : streamOnly readAddr.
Proof.
  unfold readAddr.
  apply streamOnly_bind; [auto with reads | intros header].
  apply streamOnly_if; [auto with reads | ].
  cbv zeta. apply streamOnly_bind; [rewrite atyp_switch | ]; auto 8 with reads.
Qed.

(** X8. [readAddr] does not depend on how the request is cut into TCP
    segments: on two connections that deliver the same bytes it returns the
    same address or the same error and leaves the same bytes unread. *)
Theorem readAddr_any_segmentation (c1 c2 : Conn) :
  stream c1 = stream c2 ->
  fst (readAddr c1) = fst (readAddr c2)
  /\ stream (snd (readAddr c1)) = stream (snd (readAddr c2)).
Proof. apply streamOnly_readAddr. Qed.

(** A concrete run: the same request in one segment and byte by byte. *)
Lemma readAddr_any_segmentation_witness :
  fst (readAddr (peer [[x05; x01; x00; x03; x01; x61; x00; x50]]))
  = fst (readAddr (peer [[x05]; [x01]; [x00]; [x03]; [x01]; [x61]; [x00];
                         [x50]]))
  /\ stream (snd (readAddr (peer [[x05; x01; x00; x03; x01; x61; x00; x50]])))
     = stream (snd (readAddr (peer [[x05]; [x01]; [x00]; [x03]; [x01]; [x61];
                                    [x00]; [x50]]))).
Proof.
  apply (readAddr_any_segmentation
           (peer [[x05; x01; x00; x03; x01; x61; x00; x50]])
           (peer [[x05]; [x01]; [x00]; [x03]; [x01]; [x61]; [x00]; [x50]])).
  reflexivity.
Defined.

(** X9. [readAddr] reads the wire form of every valid address, domain names
    with their length byte included: on a stream that begins with the
    header {0x05, 0x01, any reserved byte, address type}, the body and the
    big-endian port, it returns that address and leaves what follows
    unread. *)
Theorem readAddr_reads_wire_form
        (c : Conn) (a : Addr) (rsv : byte) (more : list byte) :
  validAddr a ->
  stream c = [x05; x01; rsv; Atyp a] ++ wireBody a
             ++ BigEndian_PutUint16 (Port a) ++ more ->
  fst (readAddr c) = Ok a /\ stream (snd (readAddr c)) = more.
Proof.
  intros Hv Hs.
  destruct (readAddr_wire c a rsv more Hv Hs) as (c' & R & S' & _).
  rewrite R. split; [reflexivity | exact S'].
Qed.

(** A concrete run: the request for the domain name "a", port 80, with a
    non-zero reserved byte and two more bytes behind it. *)
Lemma readAddr_reads_wire_form_witness :
  fst (readAddr (peer [[x05; x01; xff; x03; x01; x61; x00; x50; x01; x02]]))
  = Ok (mkAddr x03 [x61] 80)
  /\ stream (snd (readAddr
                    (peer [[x05; x01; xff; x03; x01; x61; x00; x50;
                            x01; x02]])))
     = [x01; x02].
Proof.
  apply (readAddr_reads_wire_form
           (peer [[x05; x01; xff; x03; x01; x61; x00; x50; x01; x02]])
           (mkAddr x03 [x61] 80) xff [x01; x02]).
  - split; [reflexivity | ].
    right. left. split; [reflexivity | cbn; lia].
  - reflexivity.
Defined.

(** X10. Every address that [readAddr] returns is valid: its type is 1, 3
    or 4, with 4, at most 255, or 16 address bytes, and its port is below
    2^16; and the bytes taken from the stream are exactly the header, the
    body of that address and its port. *)
Theorem readAddr_returns_valid (c c' : Conn) (a : Addr) :
  readAddr c = (Ok a, c') ->
  validAddr a
  /\ exists rsv,
       stream c = [x05; x01; rsv; Atyp a] ++ wireBody a
                  ++ BigEndian_PutUint16 (Port a) ++ stream c'.
Proof.
  intros H. destruct (readAddr_Ok_inv c c' a H) as (V & E & _).
  split; assumption.
Qed.

(** A concrete run: an IPv6 request followed by one more byte. *)
Lemma readAddr_returns_valid_witness :
  validAddr (mkAddr x04 [x20; x01; x0d; xb8; x00; x00; x00; x00;
                         x00; x00; x00; x00; x00; x00; x00; x01] 443)
  /\ exists rsv,
       stream (peer [[x05; x01; x00; x04];
                     [x20; x01; x0d; xb8; x00; x00; x00; x00;
                      x00; x00; x00; x00; x00; x00; x00; x01];
                     [x01; xbb; x07]])
       = [x05; x01; rsv;
          Atyp (mkAddr x04 [x20; x01; x0d; xb8; x00; x00; x00; x00;
                            x00; x00; x00; x00; x00; x00; x00; x01] 443)]
         ++ wireBody (mkAddr x04 [x20; x01; x0d; xb8; x00; x00; x00; x00;
                                  x00; x00; x00; x00; x00; x00; x00; x01] 443)
         ++ BigEndian_PutUint16 443
         ++ stream (mkConn [[x07]] [] None false).
Proof.
  apply (readAddr_returns_valid
           (peer [[x05; x01; x00; x04];
                  [x20; x01; x0d; xb8; x00; x00; x00; x00;
                   x00; x00; x00; x00; x00; x00; x00; x01];
                  [x01; xbb; x07]])
           (mkConn [[x07]] [] None false)).
  reflexivity.
Defined.

(** X11. A request with version 5 and command 1 whose address type is not
    1, 3 or 4 fails with "unsupported address type" after the four header
    bytes; the rest of the stream is left unread. *)
Theorem readAddr_unsupported_type
        (c : Conn) (rsv atyp : byte) (more : list byte) :
  stream c = [x05; x01; rsv; atyp] ++ more ->
  atyp <> x01 -> atyp <> x03 -> atyp <> x04 ->
  fst (readAddr c) = Err (Errorf "unsupported address type")
  /\ stream (snd (readAddr c)) = more.
Proof.
  intros Hs H1 H3 H4. unfold readAddr.
  read_prefix [x05; x01; rsv; atyp] more Hs (eq_refl 4) r1 S1.
  cbn [nth]. change (Byte.eqb x05 x05) with true.
  change (Byte.eqb x01 x01) with true. cbn [negb orb]. cbv zeta.
  rewrite atyp_switch.
  assert (E1 : Byte.eqb atyp x01 = false)
    by (apply not_true_is_false; intros E; apply byte_eqb_eq in E; auto).
  assert (E3 : Byte.eqb atyp x03 = false)
    by (apply not_true_is_false; intros E; apply byte_eqb_eq in E; auto).
  assert (E4 : Byte.eqb atyp x04 = false)
    by (apply not_true_is_false; intros E; apply byte_eqb_eq in E; auto).
  rewrite E1, E3, E4. unfold bind, fail. cbn [fst snd].
  rewrite stream_set_rx. auto.
Qed.

(** A concrete run: address type 0x02. *)
Lemma readAddr_unsupported_type_witness :
  fst (readAddr (peer [[x05; x01; x00; x02; x01; x02]]))
  = Err (Errorf "unsupported address type")
  /\ stream (snd (readAddr (peer [[x05; x01; x00; x02; x01; x02]])))
     = [x01; x02].
Proof.
  apply (readAddr_unsupported_type (peer [[x05; x01; x00; x02; x01; x02]])
           x00 x02 [x01; x02]).
  - reflexivity.
  - discriminate.
  - discriminate.
  - discriminate.
Defined.

(** A [ReadFull] step on a stream that, with the bytes [missing] appended,
    would begin with the [n] bytes [pre]: the stream is too short and the
    step fails with an end-of-stream error, or the step goes on with
    [pre]. *)
Lemma bind_ReadFull_truncated {B} (n : nat) (k : list byte -> M B) (c : Conn)
      (pre post missing : list byte) :
  stream c ++ missing = pre ++ post ->
  length pre = n ->
  (fst ((x <- ReadFull n ;; k x) c) = Err EOF
   \/ fst ((x <- ReadFull n ;; k x) c) = Err ErrUnexpectedEOF)
  \/ exists rest,
       concat rest ++ missing = post
       /\ (x <- ReadFull n ;; k x) c = k pre (set_rx rest c).
Proof.
  intros Hs Hn.
  destruct (Nat.le_gt_cases n (length (stream c))) as [Hle | Hgt].
  - right. destruct (bind_ReadFull_enough n k c Hle) as (rest & Hr & E).
    exists rest. destruct (app_exact n pre post Hn) as [F S'].
    assert (Fs : firstn n (stream c) = pre).
    { rewrite <- F, <- Hs, firstn_app.
      replace (n - length (stream c)) with 0 by lia.
      now rewrite firstn_O, app_nil_r. }
    assert (Ss : skipn n (stream c) ++ missing = post).
    { rewrite <- S', <- Hs, skipn_app.
      replace (n - length (stream c)) with 0 by lia.
      now rewrite skipn_O. }
    rewrite Hr, E, Fs. auto.
  - left. unfold bind.
    destruct (ReadFull_short n c Hgt) as (rest & _ & E).
    rewrite E. destruct (stream c); auto.
Qed.

(** One [ReadFull] step of a goal about a truncated stream: the short case
    closes the goal, the other case goes on. *)
Ltac truncated_step pre post Hs Hn r Sr :=
  match goal with
  | |- context [bind (ReadFull ?n) ?k ?c] =>
      destruct (bind_ReadFull_truncated n k c pre post _ Hs Hn)
        as [? | (r & Sr & ->)]; [assumption | ]
  end.

(** X12. A request cut short never parses: when the stream ends inside the
    wire form of a valid address (at least one byte is missing), [readAddr]
    fails with [io.EOF] or [io.ErrUnexpectedEOF]; it returns no address and
    no protocol error. *)
Theorem readAddr_truncated
        (c : Conn) (a : Addr) (rsv : byte) (missing : list byte) :
  validAddr a ->
  stream c ++ missing
  = [x05; x01; rsv; Atyp a] ++ wireBody a ++ BigEndian_PutUint16 (Port a) ->
  missing <> [] ->
  fst (readAddr c) = Err EOF \/ fst (readAddr c) = Err ErrUnexpectedEOF.
Proof.
  intros [Hport Hty] Hs Hm. destruct a as [atyp addr port].
  cbn [Atyp AddrBytes Port] in *. unfold wireBody in Hs.
  cbn [Atyp AddrBytes] in Hs. unfold readAddr.
  truncated_step [x05; x01; rsv; atyp]
                 ((if Byte.eqb atyp x03
                   then byte_of_N (N.of_nat (length addr)) :: addr else addr)
                  ++ BigEndian_PutUint16 port)
                 Hs (eq_refl 4) r1 S1.
  cbn [nth]. change (Byte.eqb x05 x05) with true.
  change (Byte.eqb x01 x01) with true. cbn [negb orb]. cbv zeta.
  rewrite atyp_switch.
  assert (port_step :
    forall c1,
      stream c1 ++ missing = BigEndian_PutUint16 port ++ [] ->
      fst ((portBuf <- ReadFull 2 ;;
            ret (mkAddr atyp addr (BigEndian_Uint16 portBuf))) c1) = Err EOF
      \/ fst ((portBuf <- ReadFull 2 ;;
               ret (mkAddr atyp addr (BigEndian_Uint16 portBuf))) c1)
         = Err ErrUnexpectedEOF).
  { intros c1 Hs1.
    truncated_step (BigEndian_PutUint16 port) (@nil byte) Hs1 (eq_refl 2) r Sr.
    apply app_eq_nil in Sr as [_ Sr]. contradiction. }
  destruct Hty as [[-> La] | [[-> La] | [-> La]]].
  - change (Byte.eqb x01 x03) with false in S1. cbv iota in S1.
    change (Byte.eqb x01 x01) with true. cbv iota.
    rewrite <- (stream_set_rx r1 c) in S1.
    truncated_step addr (BigEndian_PutUint16 port) S1 La r2 S2.
    apply port_step. rewrite stream_set_rx, app_nil_r. exact S2.
  - change (Byte.eqb x03 x03) with true in S1. cbv iota in S1.
    change (Byte.eqb x03 x01) with false.
    change (Byte.eqb x03 x03) with true. cbv iota.
    rewrite <- (stream_set_rx r1 c) in S1.
    match goal with
    | |- context [bind (bind ?m ?f) ?k ?x] => rewrite (bind_assoc m f k x)
    end.
    change (byte_of_N (N.of_nat (length addr)) :: addr
            ++ BigEndian_PutUint16 port)
      with ([byte_of_N (N.of_nat (length addr))]
            ++ addr ++ BigEndian_PutUint16 port) in S1.
    truncated_step [byte_of_N (N.of_nat (length addr))]
                   (addr ++ BigEndian_PutUint16 port) S1 (eq_refl 1) r2 S2.
    cbn [nth]. cbv zeta.
    assert (Hl : length addr
                 = N.to_nat (Byte.to_N (byte_of_N (N.of_nat (length addr))))).
    { rewrite to_N_byte_of_N, N.mod_small by lia. now rewrite Nat2N.id. }
    rewrite <- (stream_set_rx r2 (set_rx r1 c)) in S2.
    truncated_step addr (BigEndian_PutUint16 port) S2 Hl r3 S3.
    apply port_step. rewrite stream_set_rx, app_nil_r. exact S3.
  - change (Byte.eqb x04 x03) with false in S1. cbv iota in S1.
    change (Byte.eqb x04 x01) with false.
    change (Byte.eqb x04 x03) with false.
    change (Byte.eqb x04 x04) with true. cbv iota.
    rewrite <- (stream_set_rx r1 c) in S1.
    truncated_step addr (BigEndian_PutUint16 port) S1 La r2 S2.
    apply port_step. rewrite stream_set_rx, app_nil_r. exact S2.
Qed.

(** A concrete run: the request for 93.184.216.34:80 without its last
    byte. *)
Lemma readAddr_truncated_witness :
  fst (readAddr (peer [[x05; x01; x00; x01; x5d; xb8; xd8; x22; x00]]))
  = Err EOF
  \/ fst (readAddr (peer [[x05; x01; x00; x01; x5d; xb8; xd8; x22; x00]]))
     = Err ErrUnexpectedEOF.
Proof.
  apply (readAddr_truncated
           (peer [[x05; x01; x00; x01; x5d; xb8; xd8; x22; x00]])
           (mkAddr x01 [x5d; xb8; xd8; x22] 80) x00 [x50]).
  - split; [reflexivity | ]. left. split; reflexivity.
  - reflexivity.
  - discriminate.
Defined.

(** ** More on the exchange with the upstream proxy *)

Lemma bindOr_Write_can {B} (bs : list byte) (k : nat -> M B) (c : Conn) :
  canWrite 1 c ->
  bindOr (Write bs) closeAndFail k c
  = k (length bs)
      (mkConn (rx c) (tx c ++ [bs]) (option_map Nat.pred (wbudget c))
         (closed c)).
Proof.
  unfold bindOr, Write, canWrite.
  destruct (wbudget c) as [[ | n] | ]; intros H; [lia | reflexivity ..].
Qed.

Lemma bindOr_Write_cannot {B} (bs : list byte) (k : nat -> M B) (c : Conn) :
  wbudget c = Some 0 ->
  bindOr (Write bs) closeAndFail k c = (Err (OpError "write"), Close c).
Proof.
  intros W. unfold bindOr, Write. rewrite W. reflexivity.
Qed.

Lemma bindOr_ReadFull_prefix {B} (n : nat) (k : list byte -> M B) (c : Conn)
      (pre post : list byte) :
  stream c = pre ++ post ->
  length pre = n ->
  exists rest,
    concat rest = post
    /\ bindOr (ReadFull n) closeAndFail k c = k pre (set_rx rest c).
Proof.
  intros Hs Hn.
  destruct (bind_ReadFull_prefix n k c pre post Hs Hn) as (rest & Hr & E).
  exists rest. split; [exact Hr | ].
  rewrite <- E. unfold bind, bindOr.
  assert (Hle : n <= length (stream c)) by (rewrite Hs, length_app; lia).
  destruct (ReadFull_enough n c Hle) as (r & _ & R). now rewrite R.
Qed.

Lemma bindOr_ReadFull_short {B} (n : nat) (k : list byte -> M B) (c : Conn) :
  length (stream c) < n ->
  exists e rest,
    bindOr (ReadFull n) closeAndFail k c = (Err e, Close (set_rx rest c)).
Proof.
  intros H. destruct (ReadFull_short n c H) as (rest & _ & R).
  unfold bindOr. rewrite R. eexists. exists rest. reflexivity.
Qed.

(** One [ReadFull] step with the closing exit, on a stream known to begin
    with [pre]. *)
Ltac read_prefix_or pre post Hs Hn r Sr :=
  match goal with
  | |- context [bindOr (ReadFull ?n) closeAndFail ?k ?c] =>
      destruct (bindOr_ReadFull_prefix n k c pre post Hs Hn) as [r [Sr ->]]
  end.

Lemma canWrite_after_write (c : Conn) (t : list (list byte)) (r : list (list byte))
      (cl : bool) :
  canWrite 2 c ->
  canWrite 1 (set_rx r (mkConn (rx c) t (option_map Nat.pred (wbudget c)) cl)).
Proof.
  unfold canWrite. cbn. destruct (wbudget c) as [n | ]; cbn; [lia | auto].
Qed.

(** When every step passes, the exchange succeeds: the handshake and the
    request are written, the reply is read to its end and not beyond, and
    the connection stays open. *)
Lemma upstreamExchange_accepted
      (dest : Addr) (conn : Conn) (ver rsv atyp : byte) (body more : list byte) :
  canWrite 2 conn ->
  stream conn = [x05; x00] ++ [ver; x00; rsv; atyp] ++ body ++ more ->
  replyBody atyp body ->
  exists conn',
    upstreamExchange dest conn = (Ok tt, conn')
    /\ stream conn' = more
    /\ tx conn' = tx conn ++ [[x05; x01; x00]; connectRequest dest]
    /\ closed conn' = closed conn.
Proof.
  intros W Hs B. unfold upstreamExchange.
  rewrite bindOr_Write_can
    by (unfold canWrite in *; destruct (wbudget conn); [lia | auto]).
  set (c1 := mkConn _ _ _ _).
  assert (Hs1 : stream c1
                = [x05; x00] ++ [ver; x00; rsv; atyp] ++ body ++ more)
    by exact Hs.
  read_prefix_or [x05; x00] ([ver; x00; rsv; atyp] ++ body ++ more)
                 Hs1 (eq_refl 2) r1 S1.
  cbn [nth]. change (Byte.eqb x05 x05) with true.
  change (Byte.eqb x00 x00) with true. cbn [negb orb].
  rewrite bindOr_Write_can by (apply canWrite_after_write; exact W).
  set (c2 := mkConn _ _ _ _).
  assert (Hs2 : stream c2 = [ver; x00; rsv; atyp] ++ body ++ more)
    by exact S1.
  read_prefix_or [ver; x00; rsv; atyp] (body ++ more) Hs2 (eq_refl 4) r2 S2.
  cbn [nth]. change (Byte.eqb x00 x00) with true. cbn [negb]. cbv zeta.
  assert (Hs3 : stream (set_rx r2 c2) = body ++ more) by exact S2.
  assert (finish :
    forall (n : nat) (c3 : Conn) (tailb : list byte),
      stream c3 = tailb ++ more ->
      length tailb = n + 2 ->
      exists conn',
        bindOr (ReadFull (n + 2)) closeAndFail (fun _ => ret tt) c3
        = (Ok tt, conn')
        /\ stream conn' = more
        /\ tx conn' = tx c3 /\ closed conn' = closed c3).
  { intros n c3 tailb Ht Ln.
    read_prefix_or tailb more Ht Ln r Sr.
    eexists. split; [reflexivity | ]. cbn. auto. }
  destruct B as [b Lb | l b Lb | b Lb].
  - rewrite bind_ret.
    destruct (finish 4 _ b Hs3 Lb) as (conn' & E & S' & T & Cl).
    exists conn'. rewrite E, S', T, Cl. cbn. rewrite <- app_assoc. auto.
  - cbv iota. rewrite bind_bindOr_assoc.
    assert (Hs3' : stream (set_rx r2 c2) = [l] ++ b ++ more) by exact Hs3.
    read_prefix_or [l] (b ++ more) Hs3' (eq_refl 1) r3 S3.
    rewrite bind_ret. cbn [nth].
    assert (Hs4 : stream (set_rx r3 (set_rx r2 c2)) = b ++ more) by exact S3.
    destruct (finish _ _ b Hs4 Lb) as (conn' & E & S' & T & Cl).
    exists conn'. rewrite E, S', T, Cl. cbn. rewrite <- app_assoc. auto.
  - rewrite bind_ret.
    destruct (finish 16 _ b Hs3 Lb) as (conn' & E & S' & T & Cl).
    exists conn'. rewrite E, S', T, Cl. cbn. rewrite <- app_assoc. auto.
Qed.

(** X13. When the upstream is reached, takes both writes and answers
    {0x05, 0x00}, then a reply header with status 0x00 (any version byte,
    any reserved byte), an address type of 1, 3 or 4 and the bound address
    and port of that type, [dialThroughSocks] returns the open connection:
    the handshake and the request are what was written, and the bytes after
    the reply are left unread for the relay. *)
Theorem dialThroughSocks_accepted
        (env : Env) (upstream : string) (dest : Addr) (conn : Conn)
        (ver rsv atyp : byte) (body more : list byte) :
  Dial env upstream = inl conn ->
  canWrite 2 conn ->
  stream conn = [x05; x00] ++ [ver; x00; rsv; atyp] ++ body ++ more ->
  replyBody atyp body ->
  exists conn',
    dialThroughSocks env upstream dest = (Ok tt, Some conn')
    /\ stream conn' = more
    /\ tx conn' = tx conn ++ [[x05; x01; x00]; connectRequest dest]
    /\ closed conn' = closed conn.
Proof.
  intros D W Hs B.
  destruct (upstreamExchange_accepted dest conn ver rsv atyp body more W Hs B)
    as (conn' & E & R).
  exists conn'. split; [ | exact R].
  unfold dialThroughSocks. rewrite D, E. reflexivity.
Qed.

(** A concrete run: the upstream replies with a domain-name bound address
    and one more byte, which stays unread. *)
Lemma dialThroughSocks_accepted_witness :
  exists conn',
    dialThroughSocks
      (worldOf (peer [[x05; x00];
                      [x05; x00; x00; x03; x02; x61; x62; x00; x50; x99]]))
      "127.0.0.1:1081" (mkAddr x01 [x5d; xb8; xd8; x22] 80)
    = (Ok tt, Some conn')
    /\ stream conn' = [x99]
    /\ tx conn'
       = [] ++ [[x05; x01; x00];
                connectRequest (mkAddr x01 [x5d; xb8; xd8; x22] 80)]
    /\ closed conn' = false.
Proof.
  apply (dialThroughSocks_accepted
           (worldOf (peer [[x05; x00];
                           [x05; x00; x00; x03; x02; x61; x62; x00; x50;
                            x99]]))
           "127.0.0.1:1081" (mkAddr x01 [x5d; xb8; xd8; x22] 80)
           (peer [[x05; x00];
                  [x05; x00; x00; x03; x02; x61; x62; x00; x50; x99]])
           x05 x00 x03 [x02; x61; x62; x00; x50] [x99]).
  - reflexivity.
  - exact I.
  - reflexivity.
  - apply body_domain. reflexivity.
Defined.

Lemma keepsTx_ReadFull (n : nat) : keepsTx (ReadFull n).
Proof. intros c. apply readsOnly_ReadFull. Qed.

Lemma keepsTx_ret {A} (a : A) : keepsTx (ret a).
Proof. intros c. reflexivity. Qed.

Lemma keepsTx_closeAndFail {A} (e : error) : keepsTx (@closeAndFail A e).
Proof. intros c. reflexivity. Qed.

Lemma keepsTx_bindOr {A B} (m : M A) (k : A -> M B) :
  keepsTx m -> (forall a, keepsTx (k a)) -> keepsTx (bindOr m closeAndFail k).
Proof.
  intros Hm Hk c. unfold bindOr. specialize (Hm c).
  destruct (m c) as [[a | e | s] c1]; cbn [snd] in *.
  - rewrite Hk. exact Hm.
  - exact Hm.
  - exact Hm.
Qed.

Lemma keepsTx_bind {A B} (m : M A) (k : A -> M B) :
  keepsTx m -> (forall a, keepsTx (k a)) -> keepsTx (bind m k).
Proof.
  intros Hm Hk c. unfold bind. specialize (Hm c).
  destruct (m c) as [[a | e | s] c1]; cbn [snd] in *.
  - rewrite Hk. exact Hm.
  - exact Hm.
  - exact Hm.
Qed.

Lemma keepsTx_if {A} (b : bool) (m1 m2 : M A) :
  keepsTx m1 -> keepsTx m2 -> keepsTx (if b then m1 else m2).
Proof. destruct b; auto. Qed.

#[local] Hint Resolve keepsTx_ReadFull keepsTx_ret keepsTx_closeAndFail
  keepsTx_bindOr keepsTx_bind keepsTx_if : reads.

Lemma bindOr_Write_cases {B} (bs : list byte) (k : nat -> M B) (c : Conn) :
  bindOr (Write bs) closeAndFail k c = (Err (OpError "write"), Close c)
  \/ bindOr (Write bs) closeAndFail k c
     = k (length bs)
         (mkConn (rx c) (tx c ++ [bs]) (option_map Nat.pred (wbudget c))
            (closed c)).
Proof.
  unfold bindOr, Write.
  destruct (wbudget c) as [[ | n] | ]; [left | right | right]; reflexivity.
Qed.

Lemma bindOr_ReadFull_cases {B} (n : nat) (k : list byte -> M B) (c : Conn) :
  (exists e rest,
      bindOr (ReadFull n) closeAndFail k c = (Err e, Close (set_rx rest c)))
  \/ (exists rest,
         n <= length (stream c)
         /\ bindOr (ReadFull n) closeAndFail k c
            = k (firstn n (stream c)) (set_rx rest c)).
Proof.
  destruct (Nat.le_gt_cases n (length (stream c))) as [Hle | Hgt].
  - right. destruct (ReadFull_enough n c Hle) as (rest & _ & R).
    exists rest. split; [exact Hle | ]. unfold bindOr. now rewrite R.
  - left. apply bindOr_ReadFull_short. exact Hgt.
Qed.

(** The part of the exchange after the request was written only reads. *)
Lemma keepsTx_reply (k : list byte -> M unit) :
  (forall reply, keepsTx (k reply)) ->
  keepsTx (bindOr (ReadFull 4) closeAndFail k).
Proof. intros H. auto with reads. Qed.

(** What the exchange has written when it is over: nothing, the handshake,
    or the handshake and the request; and the request only after the
    upstream answered the handshake with {0x05, 0x00}. *)
Lemma upstreamExchange_tx (dest : Addr) (conn : Conn) :
  tx (snd (upstreamExchange dest conn)) = tx conn
  \/ tx (snd (upstreamExchange dest conn)) = tx conn ++ [[x05; x01; x00]]
  \/ (firstn 2 (stream conn) = [x05; x00]
      /\ tx (snd (upstreamExchange dest conn))
         = tx conn ++ [[x05; x01; x00]; connectRequest dest]).
Proof.
  unfold upstreamExchange.
  match goal with
  | |- context [bindOr (Write ?bs) closeAndFail ?k ?c] =>
      destruct (bindOr_Write_cases bs k c) as [E | E]; rewrite E; clear E
  end; [left; reflexivity | ].
  set (c1 := mkConn _ _ _ _).
  match goal with
  | |- context [bindOr (ReadFull ?n) closeAndFail ?k ?c] =>
      destruct (bindOr_ReadFull_cases n k c)
        as [(e & rest & E) | (rest & Hle & E)]; rewrite E; clear E
  end; [right; left; reflexivity | ].
  change (stream c1) with (stream conn) in *.
  destruct (split_at 2 _ Hle) as [_ Lr].
  set (resp := firstn 2 (stream conn)) in *.
  destruct (Byte.eqb (nth 0 resp x00) x05) eqn:V;
    [ | right; left; reflexivity].
  destruct (Byte.eqb (nth 1 resp x00) x00) eqn:K;
    [ | right; left; reflexivity].
  cbn [negb orb]. apply byte_eqb_eq in V, K.
  assert (Hresp : resp = [x05; x00])
    by (rewrite (list_of_length_2 resp Lr), V, K; reflexivity).
  match goal with
  | |- context [bindOr (Write ?bs) closeAndFail ?k ?c] =>
      destruct (bindOr_Write_cases bs k c) as [E | E]; rewrite E; clear E
  end; [right; left; reflexivity | ].
  right. right. split; [exact Hresp | ].
  rewrite keepsTx_reply.
  - cbn [tx set_rx c1]. rewrite <- app_assoc. reflexivity.
  - intros reply. apply keepsTx_if; [auto with reads | ].
    cbv zeta. apply keepsTx_bind; [rewrite atyp_switch | ];
      auto 8 with reads.
Qed.

(** X14. Whatever the upstream does, [dialThroughSocks] writes to it
    nothing but the handshake {0x05, 0x01, 0x00} and, after it, the request
    for the destination: when it returns, the connection has seen no write,
    the handshake, or the handshake and the request. *)
Theorem upstream_gets_only_handshake_and_request
        (env : Env) (upstream : string) (dest : Addr) (conn sock : Conn) :
  Dial env upstream = inl conn ->
  snd (dialThroughSocks env upstream dest) = Some sock ->
  tx sock = tx conn
  \/ tx sock = tx conn ++ [[x05; x01; x00]]
  \/ tx sock = tx conn ++ [[x05; x01; x00]; connectRequest dest].
Proof.
  intros D H. unfold dialThroughSocks in H. rewrite D in H.
  pose proof (upstreamExchange_tx dest conn) as T.
  destruct (upstreamExchange dest conn) as [r conn']. cbn [snd] in *.
  injection H as <-.
  destruct T as [T | [T | [_ T]]]; auto.
Qed.

(** A concrete run: the upstream closes after the handshake answer. *)
Lemma upstream_gets_only_handshake_and_request_witness :
  tx (mkConn [] [[x05; x01; x00];
                 connectRequest (mkAddr x01 [x5d; xb8; xd8; x22] 80)]
        None true) = []
  \/ tx (mkConn [] [[x05; x01; x00];
                    connectRequest (mkAddr x01 [x5d; xb8; xd8; x22] 80)]
           None true) = [] ++ [[x05; x01; x00]]
  \/ tx (mkConn [] [[x05; x01; x00];
                    connectRequest (mkAddr x01 [x5d; xb8; xd8; x22] 80)]
           None true)
     = [] ++ [[x05; x01; x00];
              connectRequest (mkAddr x01 [x5d; xb8; xd8; x22] 80)].
Proof.
  apply (upstream_gets_only_handshake_and_request
           (worldOf (peer [[x05; x00]])) "127.0.0.1:1081"
           (mkAddr x01 [x5d; xb8; xd8; x22] 80) (peer [[x05; x00]])).
  - reflexivity.
  - reflexivity.
Defined.

(** X15. The destination is not sent to an upstream that did not accept the
    no-auth method: when the first two bytes of the upstream are not
    {0x05, 0x00} (or do not come), the request is never written. *)
Theorem request_withheld_without_noauth
        (env : Env) (upstream : string) (dest : Addr) (conn sock : Conn) :
  Dial env upstream = inl conn ->
  firstn 2 (stream conn) <> [x05; x00] ->
  snd (dialThroughSocks env upstream dest) = Some sock ->
  (tx sock = tx conn \/ tx sock = tx conn ++ [[x05; x01; x00]])
  /\ closed sock = true.
Proof.
  intros D Hno H.
  pose proof (dialThroughSocks_cases env upstream dest) as C.
  unfold dialThroughSocks in H, C. rewrite D in H, C.
  pose proof (upstreamExchange_tx dest conn) as T.
  destruct (upstreamExchange dest conn) as [r conn'] eqn:X.
  cbn [snd] in *. injection H as <-.
  split.
  - destruct T as [T | [T | [A _]]]; auto. contradiction.
  - destruct r as [[] | e | s].
    + destruct C as [(c0 & D0 & _ & ver & rsv & atyp & body & more & E & _) _].
      rewrite D in D0. injection D0 as <-.
      rewrite E in Hno. exfalso. now apply Hno.
    + apply C.
    + contradiction.
Qed.

(** A concrete run: the upstream asks for user name and password (method
    0x02). *)
Lemma request_withheld_without_noauth_witness :
  (tx (mkConn [] [[x05; x01; x00]] None true) = []
   \/ tx (mkConn [] [[x05; x01; x00]] None true) = [] ++ [[x05; x01; x00]])
  /\ closed (mkConn [] [[x05; x01; x00]] None true) = true.
Proof.
  apply (request_withheld_without_noauth
           (worldOf (peer [[x05; x02]])) "127.0.0.1:1081"
           (mkAddr x03 [x61] 80) (peer [[x05; x02]])).
  - reflexivity.
  - discriminate.
  - reflexivity.
Defined.

(** X16. The client role understands the server role of the same program:
    against an upstream that answers with the bytes [handleHandshake]
    writes for the handshake {0x05, 0x01, 0x00} and then with the bytes
    [writeReply] writes for a status [rep], [dialThroughSocks] succeeds when
    [rep] is 0x00 and otherwise fails with "upstream request failed: " and
    the status in decimal. *)
Theorem own_reply_is_understood
        (env : Env) (upstream : string) (dest : Addr) (conn : Conn)
        (rep : byte) (more : list byte) :
  Dial env upstream = inl conn ->
  canWrite 2 conn ->
  stream conn
  = concat (tx (snd (handleHandshake (peer [[x05; x01; x00]]))))
    ++ concat (tx (snd (writeReply rep (peer [])))) ++ more ->
  fst (dialThroughSocks env upstream dest)
  = if Byte.eqb rep x00 then Ok tt
    else Err (Errorf ("upstream request failed: " ++ Sprint (Byte.to_N rep))).
Proof.
  intros D W Hs.
  change (concat (tx (snd (handleHandshake (peer [[x05; x01; x00]])))))
    with [x05; x00] in Hs.
  change (concat (tx (snd (writeReply rep (peer [])))))
    with ([x05; rep; x00; x01] ++ [x00; x00; x00; x00; x00; x00]) in Hs.
  destruct (Byte.eqb rep x00) eqn:R.
  - apply byte_eqb_eq in R. subst rep. rewrite <- app_assoc in Hs.
    destruct (upstreamExchange_accepted dest conn x05 x00 x01
                [x00; x00; x00; x00; x00; x00] more W Hs)
      as (conn' & E & _); [now constructor | ].
    unfold dialThroughSocks. rewrite D, E. reflexivity.
  - unfold dialThroughSocks. rewrite D. unfold upstreamExchange.
    rewrite bindOr_Write_can
      by (unfold canWrite in *; destruct (wbudget conn); [lia | auto]).
    set (c1 := mkConn _ _ _ _).
    assert (Hs1 : stream c1
                  = [x05; x00]
                    ++ ([x05; rep; x00; x01]
                        ++ [x00; x00; x00; x00; x00; x00]) ++ more)
      by exact Hs.
    read_prefix_or [x05; x00]
                   (([x05; rep; x00; x01]
                     ++ [x00; x00; x00; x00; x00; x00]) ++ more)
                   Hs1 (eq_refl 2) r1 S1.
    cbn [nth]. change (Byte.eqb x05 x05) with true.
    change (Byte.eqb x00 x00) with true. cbn [negb orb].
    rewrite bindOr_Write_can by (apply canWrite_after_write; exact W).
    set (c2 := mkConn _ _ _ _).
    assert (Hs2 : stream c2
                  = [x05; rep; x00; x01]
                    ++ [x00; x00; x00; x00; x00; x00] ++ more)
      by (rewrite app_assoc; exact S1).
    read_prefix_or [x05; rep; x00; x01]
                   ([x00; x00; x00; x00; x00; x00] ++ more)
                   Hs2 (eq_refl 4) r2 S2.
    cbn [nth]. rewrite R. reflexivity.
Qed.

(** A concrete run: the upstream is this program, reporting a connect
    failure (status 0x05). *)
Lemma own_reply_is_understood_witness :
  fst (dialThroughSocks
         (worldOf (peer [[x05; x00];
                         [x05; x05; x00; x01; x00; x00; x00; x00; x00; x00]]))
         "127.0.0.1:1081" (mkAddr x01 [x5d; xb8; xd8; x22] 80))
  = if Byte.eqb x05 x00 then Ok tt
    else Err (Errorf ("upstream request failed: " ++ Sprint (Byte.to_N x05))).
Proof.
  apply (own_reply_is_understood
           (worldOf (peer [[x05; x00];
                           [x05; x05; x00; x01; x00; x00; x00; x00; x00;
                            x00]]))
           "127.0.0.1:1081" (mkAddr x01 [x5d; xb8; xd8; x22] 80)
           (peer [[x05; x00];
                  [x05; x05; x00; x01; x00; x00; x00; x00; x00; x00]])
           x05 []).
  - reflexivity.
  - exact I.
  - reflexivity.
Defined.

(** ** More on the session *)

Lemma writeReply_cases (rep : byte) (c : Conn) :
  (fst (writeReply rep c) = Ok tt
   /\ tx (snd (writeReply rep c))
      = tx c ++ [[x05; rep; x00; x01; x00; x00; x00; x00; x00; x00]])
  \/ (wbudget c = Some 0
      /\ writeReply rep c = (Err (OpError "write"), c)).
Proof.
  unfold writeReply. cbv zeta.
  destruct (Write_tt_cases [x05; rep; x00; x01; x00; x00; x00; x00; x00; x00] c)
    as [(R & T & _) | [W E]]; [left | right]; auto.
Qed.

(** X17. When [handleClient] returns, on any path, the client connection is
    closed, and so is the outbound connection if one was opened (to the
    destination or to the upstream). *)
Theorem session_closes_its_connections
        (env : Env) (client : Conn) (upstream : string) :
  closed (clientEnd (handleClient env client upstream)) = true
  /\ match destEnd (handleClient env client upstream) with
     | Some d => closed d = true
     | None => True
     end.
Proof.
  unfold handleClient.
  destruct (handleHandshake client) as [[[] | e | s] c1];
    [ | split; [reflexivity | exact I] ..].
  destruct (readAddr c1) as [[dest | e | s] c2];
    [ | split; [reflexivity | exact I] ..].
  destruct (LookupIP env _) as [ips lerr].
  destruct (negb (String.eqb upstream EmptyString)).
  - pose proof (dialThroughSocks_cases env upstream dest) as C.
    destruct (dialThroughSocks env upstream dest) as [[[] | e | s] sock].
    + destruct (writeReply x00 c2) as [[[] | e | s] c3];
        (split; [reflexivity | destruct sock; [reflexivity | exact I]]).
    + destruct (writeReply x05 c2) as [r c3].
      split; [reflexivity | ]. destruct sock; [apply C | exact I].
    + contradiction.
  - destruct (Dial env _) as [conn | err].
    + destruct (writeReply x00 c2) as [[[] | e | s] c3];
        (split; reflexivity).
    + destruct (writeReply x05 c2) as [r c3]. split; [reflexivity | exact I].
Qed.

(** X18. The relay starts only after a good handshake and a good request,
    with an outbound connection open, and after the client was sent the
    method answer {0x05, 0x00} and the success reply
    {0x05, 0x00, 0x00, 0x01, 0,0,0,0, 0,0}, in that order and nothing
    else. *)
Theorem relay_only_after_success_reply
        (env : Env) (client : Conn) (upstream : string) :
  ended (handleClient env client upstream) = Relayed ->
  (exists c1 dest c2,
      handleHandshake client = (Ok tt, c1)
      /\ readAddr c1 = (Ok dest, c2))
  /\ (exists d, destEnd (handleClient env client upstream) = Some d)
  /\ tx (clientEnd (handleClient env client upstream))
     = tx client ++ [[x05; x00];
                     [x05; x00; x00; x01; x00; x00; x00; x00; x00; x00]].
Proof.
  unfold handleClient.
  destruct (handshake_writes_only_tx client) as [[Hok T1] | [Hno _]].
  2: { destruct (handleHandshake client) as [[[] | e | s] c1];
       [exfalso; now apply Hno | discriminate ..]. }
  destruct (handleHandshake client) as [r c1]. cbn [fst snd] in *. subst r.
  destruct (readsOnly_readAddr c1) as (_ & T2 & _).
  destruct (readAddr c1) as [[dest | e | s] c2] eqn:HR; [ | discriminate ..].
  cbn [snd] in T2.
  destruct (LookupIP env _) as [ips lerr].
  pose proof (dialThroughSocks_cases env upstream dest) as C.
  pose proof (writeReply_cases x00 c2) as R0.
  assert (fin :
    forall d : Conn,
      forall r3 c3, writeReply x00 c2 = (r3, c3) ->
      r3 = Ok tt ->
      (exists c1' dest' c2',
          (@Ok unit tt, c1) = (Ok tt, c1') /\ readAddr c1' = (Ok dest', c2'))
      /\ (exists d', Some (Close d) = Some d')
      /\ tx (Close c3)
         = tx client ++ [[x05; x00];
                         [x05; x00; x00; x01; x00; x00; x00; x00; x00; x00]]).
  { intros d r3 c3 E ->. rewrite E in R0. cbn [fst snd] in R0.
    destruct R0 as [[_ T3] | [_ E']]; [ | discriminate E'].
    split; [exists c1, dest, c2; split; [reflexivity | exact HR] | ].
    split; [exists (Close d); reflexivity | ].
    cbn [tx Close]. rewrite T3, T2, T1, <- app_assoc. reflexivity. }
  clear R0.
  destruct (negb (String.eqb upstream EmptyString)).
  - destruct (dialThroughSocks env upstream dest) as [[[] | e | s] [d | ]];
      try contradiction;
      try (destruct (writeReply x05 c2); discriminate);
      try discriminate.
    destruct (writeReply x00 c2) as [[[] | e | s] c3] eqn:E;
      try discriminate.
    intros _. exact (fin d _ _ eq_refl eq_refl).
  - clear C.
    destruct (Dial env (JoinHostPort _ _)) as [d | err];
      try (destruct (writeReply x05 c2); discriminate).
    destruct (writeReply x00 c2) as [[[] | e | s] c3] eqn:E;
      try discriminate.
    intros _. exact (fin d _ _ eq_refl eq_refl).
Qed.

(** A concrete run: the chained session against an accepting upstream. *)
Lemma relay_only_after_success_reply_witness :
  (exists c1 dest c2,
      handleHandshake clientIPv4 = (Ok tt, c1)
      /\ readAddr c1 = (Ok dest, c2))
  /\ (exists d,
         destEnd (handleClient (worldOf acceptingUpstream) clientIPv4
                    "127.0.0.1:1081") = Some d)
  /\ tx (clientEnd (handleClient (worldOf acceptingUpstream) clientIPv4
                      "127.0.0.1:1081"))
     = tx clientIPv4
       ++ [[x05; x00];
           [x05; x00; x00; x01; x00; x00; x00; x00; x00; x00]].
Proof.
  apply (relay_only_after_success_reply (worldOf acceptingUpstream)
           clientIPv4 "127.0.0.1:1081").
  reflexivity.
Defined.

(** The session after a good handshake and request, in either mode: the
    host looked up and the address dialled. *)
Lemma handleClient_lookup_and_dial
      (env : Env) (client c1 c2 : Conn) (upstream : string) (dest : Addr) :
  handleHandshake client = (Ok tt, c1) ->
  readAddr c1 = (Ok dest, c2) ->
  lookedUp (handleClient env client upstream)
  = Some (string_of_list_byte (AddrBytes dest))
  /\ dialed (handleClient env client upstream)
     = Some (if negb (String.eqb upstream EmptyString) then upstream
             else JoinHostPort
                    (ipToUse env
                       (fst (LookupIP env
                               (string_of_list_byte (AddrBytes dest)))))
                    (Sprint (Port dest))).
Proof.
  intros Hh Hr. unfold handleClient. rewrite Hh, Hr.
  destruct (LookupIP env _) as [ips lerr]. cbn [fst].
  destruct (negb (String.eqb upstream EmptyString)).
  - destruct (dialThroughSocks env upstream dest) as [[[] | e | s] sock].
    + destruct (writeReply x00 c2) as [[[] | e | s] c3]; split; reflexivity.
    + destruct (writeReply x05 c2) as [r c3]; split; reflexivity.
    + split; reflexivity.
  - destruct (Dial env (JoinHostPort _ _)) as [conn | err].
    + destruct (writeReply x00 c2) as [[[] | e | s] c3]; split; reflexivity.
    + destruct (writeReply x05 c2) as [r c3]; split; reflexivity.
Qed.

(** X19. A session dials at most one address, and only after a good
    handshake and a good request: the address dialled is the upstream when
    one is configured, never the destination, and otherwise the host made of
    the resolver's answer joined with the port of the request. *)
Theorem session_dials_only_after_request
        (env : Env) (client : Conn) (upstream target : string) :
  dialed (handleClient env client upstream) = Some target ->
  exists c1 dest c2,
    handleHandshake client = (Ok tt, c1)
    /\ readAddr c1 = (Ok dest, c2)
    /\ target
       = if negb (String.eqb upstream EmptyString) then upstream
         else JoinHostPort
                (ipToUse env
                   (fst (LookupIP env
                           (string_of_list_byte (AddrBytes dest)))))
                (Sprint (Port dest)).
Proof.
  intros H.
  destruct (handleHandshake client) as [[[] | e | s] c1] eqn:Hh;
    try (unfold handleClient in H; rewrite Hh in H; discriminate H).
  destruct (readAddr c1) as [[dest | e | s] c2] eqn:Hr;
    try (unfold handleClient in H; rewrite Hh, Hr in H; discriminate H).
  exists c1, dest, c2. split; [reflexivity | ]. split; [exact Hr | ].
  destruct (handleClient_lookup_and_dial env client c1 c2 upstream dest Hh Hr)
    as [_ D].
  rewrite D in H. now injection H as <-.
Qed.

(** A concrete run: the chained session dials the upstream. *)
Lemma session_dials_only_after_request_witness :
  exists c1 dest c2,
    handleHandshake clientIPv4 = (Ok tt, c1)
    /\ readAddr c1 = (Ok dest, c2)
    /\ "127.0.0.1:1081"%string
       = if negb (String.eqb "127.0.0.1:1081" EmptyString)
         then "127.0.0.1:1081"%string
         else JoinHostPort
                (ipToUse (worldOf acceptingUpstream)
                   (fst (LookupIP (worldOf acceptingUpstream)
                           (string_of_list_byte (AddrBytes dest)))))
                (Sprint (Port dest)).
Proof.
  apply (session_dials_only_after_request (worldOf acceptingUpstream)
           clientIPv4 "127.0.0.1:1081" "127.0.0.1:1081").
  reflexivity.
Defined.

(** X20. With an upstream configured the destination is still looked up
    locally: after a good handshake and request, [net.LookupIP] is called on
    the string of the raw address bytes before the upstream is dialled, and
    its answer is not used. *)
Theorem chained_mode_still_looks_up
        (env : Env) (client c1 c2 : Conn) (upstream : string) (dest : Addr) :
  upstream <> EmptyString ->
  handleHandshake client = (Ok tt, c1) ->
  readAddr c1 = (Ok dest, c2) ->
  lookedUp (handleClient env client upstream)
  = Some (string_of_list_byte (AddrBytes dest))
  /\ dialed (handleClient env client upstream) = Some upstream.
Proof.
  intros Hup Hh Hr.
  destruct (handleClient_lookup_and_dial env client c1 c2 upstream dest Hh Hr)
    as [L D].
  split; [exact L | ]. rewrite D.
  apply String.eqb_neq in Hup. now rewrite Hup.
Qed.

(** A concrete run: a chained session for the domain name "a". *)
Lemma chained_mode_still_looks_up_witness :
  lookedUp (handleClient (worldOf acceptingUpstream) clientDomain
              "127.0.0.1:1081")
  = Some (string_of_list_byte (AddrBytes (mkAddr x03 [x61] 80)))
  /\ dialed (handleClient (worldOf acceptingUpstream) clientDomain
               "127.0.0.1:1081") = Some "127.0.0.1:1081"%string.
Proof.
  apply (chained_mode_still_looks_up (worldOf acceptingUpstream) clientDomain
           (mkConn [[x05; x01; x00; x03; x01; x61; x00; x50]]
              [[x05; x00]] None false)
           (mkConn [] [[x05; x00]] None false)
           "127.0.0.1:1081" (mkAddr x03 [x61] 80)).
  - discriminate.
  - reflexivity.
  - reflexivity.
Defined.

(** X21. Direct mode, the dial fails: the client is written the reply with
    status 0x05 (when it can be written to), no outbound connection exists,
    and the session ends as a connect failure with the dial's error. *)
Theorem direct_connect_failure_reports
        (env : Env) (client c1 c2 : Conn) (dest : Addr) (err : error) :
  handleHandshake client = (Ok tt, c1) ->
  readAddr c1 = (Ok dest, c2) ->
  Dial env (JoinHostPort
              (ipToUse env
                 (fst (LookupIP env (string_of_list_byte (AddrBytes dest)))))
              (Sprint (Port dest))) = inr err ->
  ended (handleClient env client EmptyString) = ConnectFailed err
  /\ destEnd (handleClient env client EmptyString) = None
  /\ tx (clientEnd (handleClient env client EmptyString))
     = match wbudget c2 with
       | Some 0 => tx c2
       | _ => tx c2 ++ [[x05; x05; x00; x01; x00; x00; x00; x00; x00; x00]]
       end.
Proof.
  intros Hh Hr D. unfold handleClient. rewrite Hh, Hr.
  change (negb (String.eqb EmptyString EmptyString)) with false. cbv iota.
  destruct (LookupIP env _) as [ips lerr]. cbn [fst] in D. rewrite D.
  destruct (wbudget c2) as [[ | k] | ] eqn:W.
  - rewrite (writeReply_failed x05 c2 W). repeat split.
  - destruct (writeReply_written x05 c2) as (_ & T & _); [congruence | ].
    destruct (writeReply x05 c2) as [r c3]. cbn [snd] in T.
    cbn [ended destEnd clientEnd Close tx]. auto.
  - destruct (writeReply_written x05 c2) as (_ & T & _); [congruence | ].
    destruct (writeReply x05 c2) as [r c3]. cbn [snd] in T.
    cbn [ended destEnd clientEnd Close tx]. auto.
Qed.

(** A concrete run: the resolver answers, the dial fails. *)
Lemma direct_connect_failure_reports_witness :
  ended (handleClient resolvingWorld clientDomain EmptyString)
  = ConnectFailed (OpError "dial")
  /\ destEnd (handleClient resolvingWorld clientDomain EmptyString) = None
  /\ tx (clientEnd (handleClient resolvingWorld clientDomain EmptyString))
     = [[x05; x00]; [x05; x05; x00; x01; x00; x00; x00; x00; x00; x00]].
Proof.
  apply (direct_connect_failure_reports resolvingWorld clientDomain
           (mkConn [[x05; x01; x00; x03; x01; x61; x00; x50]]
              [[x05; x00]] None false)
           (mkConn [] [[x05; x00]] None false)
           (mkAddr x03 [x61] 80) (OpError "dial")).
  - reflexivity.
  - reflexivity.
  - reflexivity.
Defined.

(** X22. Direct mode, the dial succeeds and the client can be written to:
    the client gets the success reply, the relay is started, and the
    handler itself has neither written to nor read from the destination,
    which it closes when it returns. *)
Theorem direct_connect_success_relays
        (env : Env) (client c1 c2 conn : Conn) (dest : Addr) :
  handleHandshake client = (Ok tt, c1) ->
  readAddr c1 = (Ok dest, c2) ->
  Dial env (JoinHostPort
              (ipToUse env
                 (fst (LookupIP env (string_of_list_byte (AddrBytes dest)))))
              (Sprint (Port dest))) = inl conn ->
  wbudget c2 <> Some 0 ->
  ended (handleClient env client EmptyString) = Relayed
  /\ destEnd (handleClient env client EmptyString) = Some (Close conn)
  /\ tx (clientEnd (handleClient env client EmptyString))
     = tx c2 ++ [[x05; x00; x00; x01; x00; x00; x00; x00; x00; x00]].
Proof.
  intros Hh Hr D W. unfold handleClient. rewrite Hh, Hr.
  change (negb (String.eqb EmptyString EmptyString)) with false. cbv iota.
  destruct (LookupIP env _) as [ips lerr]. cbn [fst] in D. rewrite D.
  destruct (writeReply_written x00 c2 W) as (R & T & _).
  destruct (writeReply x00 c2) as [r c3]. cbn [fst snd] in *. subst r.
  cbn. auto.
Qed.

(** A concrete run: the domain name "a" resolves and the server is
    reached. *)
Lemma direct_connect_success_relays_witness :
  ended (handleClient reachableWorld clientDomain EmptyString) = Relayed
  /\ destEnd (handleClient reachableWorld clientDomain EmptyString)
     = Some (Close (peer []))
  /\ tx (clientEnd (handleClient reachableWorld clientDomain EmptyString))
     = [[x05; x00]]
       ++ [[x05; x00; x00; x01; x00; x00; x00; x00; x00; x00]].
Proof.
  apply (direct_connect_success_relays reachableWorld clientDomain
           (mkConn [[x05; x01; x00; x03; x01; x61; x00; x50]]
              [[x05; x00]] None false)
           (mkConn [] [[x05; x00]] None false)
           (peer []) (mkAddr x03 [x61] 80)).
  - reflexivity.
  - reflexivity.
  - reflexivity.
  - discriminate.
Defined.

(** ** The log form of parsed addresses *)

Lemma hasByte_append (ch : ascii) (s t : string) :
  hasByte ch (s ++ t) = hasByte ch s || hasByte ch t.
Proof.
  induction s as [ | a r IH]; [reflexivity | ].
  cbn. rewrite IH. apply orb_assoc.
Qed.

Lemma string_append_assoc (s t u : string) :
  ((s ++ t) ++ u = s ++ t ++ u)%string.
Proof.
  induction s as [ | a r IH]; [reflexivity | ]. cbn. now rewrite IH.
Qed.

(** X23. The log form of an address that [readAddr] returned is never
    "unknown": it is a host text followed by a colon and the port in
    decimal. *)
Theorem parsed_address_is_never_unknown
        (env : Env) (c c' : Conn) (a : Addr) :
  readAddr c = (Ok a, c') ->
  Addr_String env a <> "unknown"%string
  /\ exists host,
       Addr_String env a = (host ++ ":" ++ Sprint (Port a))%string.
Proof.
  intros H. destruct (readAddr_Ok_inv c c' a H) as ([_ V] & _).
  assert (E : exists host,
             Addr_String env a = (host ++ ":" ++ Sprint (Port a))%string).
  { unfold Addr_String.
    destruct V as [[-> _] | [[-> _] | [-> _]]].
    - eexists. reflexivity.
    - eexists. reflexivity.
    - exists ("[" ++ IP_String env (AddrBytes a) ++ "]")%string.
      cbn. rewrite string_append_assoc. reflexivity. }
  split; [ | exact E].
  destruct E as [host E]. rewrite E. intros U.
  apply (f_equal (hasByte ":")) in U.
  rewrite hasByte_append in U. cbn in U.
  rewrite orb_true_r in U. discriminate.
Qed.

(** A concrete run: the request for 93.184.216.34:80. *)
Lemma parsed_address_is_never_unknown_witness :
  Addr_String (worldOf acceptingUpstream) (mkAddr x01 [x5d; xb8; xd8; x22] 80)
  <> "unknown"%string
  /\ exists host,
       Addr_String (worldOf acceptingUpstream)
         (mkAddr x01 [x5d; xb8; xd8; x22] 80)
       = (host ++ ":" ++ Sprint 80)%string.
Proof.
  apply (parsed_address_is_never_unknown (worldOf acceptingUpstream)
           (peer [[x05; x01; x00; x01; x5d; xb8; xd8; x22; x00; x50]])
           (mkConn [] [] None false)).
  reflexivity.
Defined.

Example log_form_examples :
  Addr_String (worldOf acceptingUpstream) (mkAddr x01 [x5d; xb8; xd8; x22] 80)
  = "93.184.216.34:80"%string
  /\ Addr_String (worldOf acceptingUpstream) (mkAddr x03 [x61] 443)
     = "a:443"%string
  /\ Addr_String resolvingWorld
       (mkAddr x04 [x20; x01; x0d; xb8; x00; x00; x00; x00;
                    x00; x00; x00; x00; x00; x00; x00; x01] 80)
     = "[2001:db8::1]:80"%string
  /\ Addr_String (worldOf acceptingUpstream) (mkAddr x02 [] 80)
     = "unknown"%string.
Proof. repeat split. Qed.

(** ** More on direct mode *)

(** X24. Direct mode with an empty resolution, for any address type: the
    session is not ended by the failed lookup; [net.Dial] is still called,
    with an empty host before the colon and the port. *)
Theorem direct_mode_empty_resolution_still_dials
        (env : Env) (client c1 c2 : Conn) (dest : Addr)
        (lerr : option error) :
  handleHandshake client = (Ok tt, c1) ->
  readAddr c1 = (Ok dest, c2) ->
  LookupIP env (string_of_list_byte (AddrBytes dest)) = ([], lerr) ->
  dialed (handleClient env client EmptyString)
  = Some (":" ++ Sprint (Port dest))%string.
Proof.
  intros Hh Hr Hl.
  destruct (handleClient_lookup_and_dial env client c1 c2 EmptyString dest
              Hh Hr) as [_ D].
  rewrite D, Hl. reflexivity.
Qed.

(** A concrete run: the domain name "a" does not resolve. *)
Lemma direct_mode_empty_resolution_still_dials_witness :
  dialed (handleClient (worldOf acceptingUpstream) clientDomain EmptyString)
  = Some (":" ++ Sprint 80)%string.
Proof.
  apply (direct_mode_empty_resolution_still_dials
           (worldOf acceptingUpstream) clientDomain
           (mkConn [[x05; x01; x00; x03; x01; x61; x00; x50]]
              [[x05; x00]] None false)
           (mkConn [] [[x05; x00]] None false)
           (mkAddr x03 [x61] 80) (Some (OpError "lookup"))).
  - reflexivity.
  - reflexivity.
  - reflexivity.
Defined.

(** X25. The error of [net.LookupIP] plays no part: two resolvers that give
    the same addresses for every host, whatever errors they report, lead to
    the same session. *)
Theorem lookup_error_is_ignored
        (env : Env) (lookup' : string -> list IP * option error)
        (client : Conn) (upstream : string) :
  (forall host, fst (lookup' host) = fst (LookupIP env host)) ->
  handleClient (mkEnv lookup' (Dial env) (Addr16_String env)) client upstream
  = handleClient env client upstream.
Proof.
  intros Hsame. unfold handleClient.
  destruct (handleHandshake client) as [[[] | e | s] c1]; try reflexivity.
  destruct (readAddr c1) as [[dest | e | s] c2]; try reflexivity.
  cbn [LookupIP Dial].
  specialize (Hsame (string_of_list_byte (AddrBytes dest))).
  destruct (lookup' _) as [ips' e'], (LookupIP env _) as [ips e].
  cbn [fst] in Hsame. subst ips'. reflexivity.
Qed.

(** A concrete run: the same empty answer, with and without an error. *)
Lemma lookup_error_is_ignored_witness :
  handleClient
    (mkEnv (fun _ => ([], None))
       (Dial (worldOf acceptingUpstream))
       (Addr16_String (worldOf acceptingUpstream)))
    clientDomain EmptyString
  = handleClient (worldOf acceptingUpstream) clientDomain EmptyString.
Proof.
  apply (lookup_error_is_ignored (worldOf acceptingUpstream)
           (fun _ => ([], None)) clientDomain EmptyString).
  reflexivity.
Defined.
